(** * notification-ms: subscriber registry, broadcast and stream sessions

    A shallow embedding of the notification service (package main of
    notification-ms: [subscribeToEvents], [SubscribeToNotifications],
    [broadcast]) together with the part of the API gateway that opens a
    stream ([handleWebSocket]).

    Conventions.
    - The Go heap is restricted to the [subscriber] objects the service
      allocates; a [*subscriber] is the index of the object in that store, so
      pointer identity is index equality.
    - Every function that touches the server takes and returns the server
      state explicitly, through the monad [M]; a run-time panic and a
      goroutine that cannot take its step are results of their own.
    - One definition stands for one critical section or one pass through a
      [select]; what other goroutines do in between is expressed by the order
      in which these definitions are run ([Action], [run]).
    - Time is the time spent in a [select]: a [select] is resolved at a given
      [elapsed] after it was entered, and [time.After] tells whether its
      timer has fired by then.

    The second part embeds the services around it: user-ms ([Register],
    [Login]), billing-ms ([CreateBillingAccount], [GetBilling],
    [UpdateBilling] and the callback for "user.created") and the handlers of
    the gateway in front of them. There a database is the content of its one
    table, and what the code takes from outside (bcrypt, the uuid, a
    failure of the database, the state of the NATS connection, the order of
    the rows of a query, the rounding of a REAL column and of ["%.2f"]) is
    an argument of the function that uses it. *)

From Stdlib Require Import ZArith Ascii String Floats.
From stdpp Require Import base option list gmap strings.

Set Warnings "-register-all".

(** ** encoding/json, as far as the two event structs use it *)

Module json.

(** A JSON text after the syntax check of [json.Unmarshal]; strings are
    held unquoted. *)
Inductive Value :=
| Null
| Bool (b : bool)
| Number (lit : string)
| Str (s : string)
| Array (elems : list Value)
| Object (members : list (string * Value)).

Inductive Error :=
| SyntaxError
| UnmarshalTypeError (value : string) (field : string).

Definition describe (v : Value) : string :=
  match v with
  | Null => "null"
  | Bool _ => "bool"
  | Number _ => "number"
  | Str _ => "string"
  | Array _ => "array"
  | Object _ => "object"
  end.

Definition upper (c : ascii) : ascii :=
  let n := nat_of_ascii c in
  if (97 <=? n)%nat && (n <=? 122)%nat then ascii_of_nat (n - 32) else c.

(** [foldName]: ASCII letters are upper-cased; U+017F (bytes C5 BF) and
    U+212A (bytes E2 84 AA) are the two other runes whose fold is an ASCII
    letter. Every other multi-byte rune folds to a multi-byte rune and is
    left as it is here, which decides equality with the fold of an ASCII
    field name the same way. *)
Fixpoint foldName (s : string) : string :=
  match s with
  | EmptyString => EmptyString
  | String c rest =>
      match nat_of_ascii c, rest with
      | 197%nat, String d rest' =>
          if (nat_of_ascii d =? 191)%nat then String "S" (foldName rest')
          else String c (foldName rest)
      | 226%nat, String d (String e rest') =>
          if (nat_of_ascii d =? 132)%nat && (nat_of_ascii e =? 170)%nat
          then String "K" (foldName rest')
          else String c (foldName rest)
      | _, _ => String (upper c) (foldName rest)
      end
  end.

(** A struct with string fields only: the JSON name of each field (its
    tag) and the assignment to it. *)
Record Field (T : Type) := mkField { name : string; store : string → T → T }.
Arguments mkField {T} _ _.
Arguments name {T} _.
Arguments store {T} _ _ _.

(** The field a key selects: the exact name first, then the folded one. *)
Definition lookupField {T} (fields : list (Field T)) (key : string)
  : option (Field T) :=
  match find (λ f, bool_decide (name f = key)) fields with
  | Some f => Some f
  | None => find (λ f, bool_decide (foldName (name f) = foldName key)) fields
  end.

Definition saveError (saved : option Error) (e : Error) : option Error :=
  match saved with
  | Some _ => saved
  | None => Some e
  end.

(** Decoding of the members of an object into the struct, in order: unknown
    keys are skipped, [null] leaves the field as it is, a string is stored,
    any other value records a type error and decoding goes on. *)
Fixpoint object {T} (fields : list (Field T)) (members : list (string * Value))
    (t : T) (saved : option Error) : T * option Error :=
  match members with
  | [] => (t, saved)
  | (key, v) :: rest =>
      match lookupField fields key with
      | None => object fields rest t saved
      | Some f =>
          match v with
          | Str s => object fields rest (store f s t) saved
          | Null => object fields rest t saved
          | _ =>
              object fields rest t
                (saveError saved (UnmarshalTypeError (describe v) (name f)))
          end
      end
  end.

(** [json.Unmarshal(data, &t)] for such a struct. [data] is [None] when the
    bytes are not a JSON text. The struct is updated in place, so it is
    returned next to the error. *)
Definition Unmarshal {T} (fields : list (Field T)) (data : option Value) (t : T)
  : T * option Error :=
  match data with
  | None => (t, Some SyntaxError)
  | Some Null => (t, None)
  | Some (Object members) => object fields members t None
  | Some v => (t, Some (UnmarshalTypeError (describe v) ""))
  end.

End json.

(** ** Values carried through the service *)

Module time.
(** [time.Duration]: a count of nanoseconds. *)
Abbreviation Duration := Z (only parsing).
Definition Nanosecond : Duration := 1.
Definition Microsecond : Duration := 1000 * Nanosecond.
Definition Millisecond : Duration := 1000 * Microsecond.
Definition Second : Duration := 1000 * Millisecond.

(** [<-time.After(d)] can proceed once [d] has passed since the call. *)
Definition After (d elapsed : Duration) : bool := (d <=? elapsed)%Z.
End time.

Module notifpb.
Record Notification := mkNotification {
  Id : string;
  UserId : string;
  Message : string;
  Timestamp : string
}.

End notifpb.

(** A Go [error], by its text. *)
Abbreviation error := string (only parsing).

(** [UserCreatedEvent] matches the event from user-ms. *)
Record UserCreatedEvent := { UID : string; Username : string }.

(** [billUpdate] matches the event of billing-ms. *)
Record billUpdate := { Id : string; Message : string }.

Definition UserCreatedEvent_fields : list (json.Field UserCreatedEvent) :=
  [ json.mkField "uid" (λ v e, {| UID := v; Username := Username e |});
    json.mkField "username" (λ v e, {| UID := UID e; Username := v |}) ].

Definition billUpdate_fields : list (json.Field billUpdate) :=
  [ json.mkField "Id" (λ v e, {| Id := v; Message := Message e |});
    json.mkField "Message" (λ v e, {| Id := Id e; Message := v |}) ].

(** [var event UserCreatedEvent] and [var event billUpdate]: the zero
    values. *)
Definition zeroUserCreatedEvent : UserCreatedEvent := {| UID := ""; Username := "" |}.

Definition zeroBillUpdate : billUpdate := {| Id := ""; Message := "" |}.

(** [nats.Msg]: the subject and the payload, the payload as [json.Unmarshal]
    sees it. *)
Record Msg := { Subject : string; Data : option json.Value }.

(** ** Channels *)

(** [chan *notifpb.Notification]: the buffered records, oldest first, the
    capacity given to [make], and whether [close] has run. *)
Record chan := mkChan { buf : list notifpb.Notification; cap : nat; closed : bool }.

Definition make (n : nat) : chan := mkChan [] n false.

(** What a send finds when it is tried. *)
Inductive SendAttempt :=
| SendProceeds (c : chan)
| SendPanics
| SendBlocks.

Definition trySend (c : chan) (x : notifpb.Notification) : SendAttempt :=
  if closed c then SendPanics
  else if length (buf c) <? cap c then
    SendProceeds (mkChan (buf c ++ [x]) (cap c) (closed c))
  else SendBlocks.

(** ** The server *)

(** [subscriber] holds the channel for sending notifications to a specific
    stream. The channel is made with its subscriber and reached only through
    it, so it is stored in the object. *)
Record subscriber := mkSubscriber { ch : chan; userId : string }.

(** A [*subscriber]. *)
Abbreviation ptr := nat (only parsing).

(** The lines the service writes with [log.Printf] and [log.Println]. *)
Inductive LogLine :=
| LogReceivedUserCreated (data : option json.Value)
| LogErrUnmarshalUserCreated (err : json.Error)
| LogReceivedBillUpdate (data : option json.Value)
| LogErrUnmarshalBillUpdate
| LogNewSubscriber (userID : string)
| LogSubscriberDisconnected (userID : string)
| LogErrorSending (userID : string) (err : error)
| LogClientDisconnected (userID : string)
| LogNoActiveSubscribers (userID : string)
| LogBroadcasted (userID : string)
| LogChannelFull (userID : string).

(** [notificationServer] manages the active subscribers: the map
    [subscribers] (guarded by [mu] in the source), the subscriber objects it
    points to, and the log written so far. *)
Record notificationServer := mkServer {
  subscribers : gmap string ptr;
  heap : list subscriber;
  logs : list LogLine
}.

(** The server built in [main]: [subscribers: make(map[string]*subscriber)]. *)
Definition newServer : notificationServer := mkServer ∅ [] [].

(** *** State passing *)

Inductive Res (A : Type) :=
| Ok (a : A)
| Panic (msg : string)
| Blocked.
Arguments Ok {A} _.
Arguments Panic {A} _.
Arguments Blocked {A}.

Definition M (A : Type) : Type := notificationServer → Res (A * notificationServer).

#[global] Instance M_ret : MRet M := λ A a s, Ok (a, s).
#[global] Instance M_bind : MBind M := λ A B f m s,
  match m s with
  | Ok (a, s') => f a s'
  | Panic msg => Panic msg
  | Blocked => Blocked
  end.

Definition panic {A} (msg : string) : M A := λ _, Panic msg.
Definition blocked {A} : M A := λ _, Blocked.

Definition log (l : LogLine) : M unit :=
  λ s, Ok ((), mkServer (subscribers s) (heap s) (logs s ++ [l])).

(** [&subscriber{...}]: a new object, distinct from all the others. *)
Definition new (x : subscriber) : M ptr :=
  λ s, Ok (length (heap s), mkServer (subscribers s) (heap s ++ [x]) (logs s)).

Definition deref (sub : ptr) : M subscriber :=
  λ s, match heap s !! sub with
       | Some x => Ok (x, s)
       | None => Panic "invalid memory address or nil pointer dereference"
       end.

(** Assignment to the channel held by [sub]. *)
Definition setChan (sub : ptr) (c : chan) : M unit :=
  λ s, match heap s !! sub with
       | Some x =>
           Ok ((), mkServer (subscribers s)
                     (<[sub := mkSubscriber c (userId x)]> (heap s)) (logs s))
       | None => Panic "invalid memory address or nil pointer dereference"
       end.

(** [sub, ok := s.subscribers[userID]] between [RLock] and [RUnlock]. *)
Definition mapLookup (userID : string) : M (option ptr) :=
  λ s, Ok (subscribers s !! userID, s).

(** [s.subscribers[userID] = sub] between [Lock] and [Unlock]. *)
Definition mapStore (userID : string) (sub : ptr) : M unit :=
  λ s, Ok ((), mkServer (<[userID := sub]> (subscribers s)) (heap s) (logs s)).

(** [delete(s.subscribers, userID)] between [Lock] and [Unlock]. *)
Definition mapDelete (userID : string) : M unit :=
  λ s, Ok ((), mkServer (delete userID (subscribers s)) (heap s) (logs s)).

(** [close(sub.ch)]. *)
Definition close (sub : ptr) : M unit :=
  x ← deref sub;
  if closed (ch x) then panic "close of closed channel"
  else setChan sub (mkChan (buf (ch x)) (cap (ch x)) true).

(** [<-sub.ch], when a record is buffered. On an empty channel the receive
    waits. A closed and drained channel would yield nil, but the only
    receiver is the goroutine that closes the channel on its way out, so
    that receive is no step of any goroutine. *)
Definition recv (sub : ptr) : M notifpb.Notification :=
  x ← deref sub;
  match buf (ch x) with
  | n :: rest => setChan sub (mkChan rest (cap (ch x)) (closed (ch x)));; mret n
  | [] => blocked
  end.

(** ** broadcast *)

(** Which of its three ways a call of [broadcast] went; the source tells them
    apart by the line it logs. *)
Inductive DeliveryOutcome :=
| NoSubscriber   (** "No active subscribers for user ..." *)
| Delivered      (** "Successfully broadcasted notification to user: ..." *)
| Dropped.       (** "Subscriber channel full for user ..., dropping notification." *)

(** The [select] of [broadcast], resolved [elapsed] after it was entered:

      select {
      case sub.ch <- notif:
      case <-time.After(1 * time.Second):
      }

    The send can proceed when the channel has room, and proceeds by a panic
    when the channel is closed; the timer case can proceed once the second
    has passed. With neither the goroutine waits; with both Go picks one at
    random, which [pickTimer] decides here. *)
Definition broadcastSelect (elapsed : time.Duration) (pickTimer : bool)
    (userID : string) (sub : ptr) (notif : notifpb.Notification) : M DeliveryOutcome :=
  x ← deref sub;
  let attempt := trySend (ch x) notif in
  let timer := time.After (1 * time.Second) elapsed in
  let sendReady := match attempt with SendBlocks => false | _ => true end in
  if timer && (pickTimer || negb sendReady) then
    log (LogChannelFull userID);; mret Dropped
  else
    match attempt with
    | SendProceeds c => setChan sub c;; log (LogBroadcasted userID);; mret Delivered
    | SendPanics => panic "send on closed channel"
    | SendBlocks => blocked
    end.

(** [broadcast] sends a notification to a user's active streams. No other
    goroutine runs between the lookup and the [select] here; a schedule
    that puts steps in between runs [mapLookup] and [broadcastSelect] apart. *)
Definition broadcast (elapsed : time.Duration) (pickTimer : bool)
    (userID : string) (notif : notifpb.Notification) : M DeliveryOutcome :=
  found ← mapLookup userID;
  match found with
  | None => log (LogNoActiveSubscribers userID);; mret NoSubscriber
  | Some sub => broadcastSelect elapsed pickTimer userID sub notif
  end.

(** ** SubscribeToNotifications *)

(** From [userID := req.UserId] to the [Unlock] after the map assignment. *)
Definition attach (userID : string) : M ptr :=
  log (LogNewSubscriber userID);;
  sub ← new (mkSubscriber (make 10) userID);
  mapStore userID sub;;
  mret sub.

(** The deferred function. *)
Definition deferred (userID : string) (sub : ptr) : M unit :=
  mapDelete userID;;
  close sub;;
  log (LogSubscriberDisconnected userID).

(** The case the [select] of the send loop takes in one pass: a record
    received from [sub.ch], with what [stream.Send] answers for it, or the
    stream's context done, with [stream.Context().Err()]. *)
Inductive LoopCase :=
| CaseNotif (sendErr : option error)
| CaseDone (ctxErr : error).

(** What one pass leads to: the loop goes on, having sent a record, or the
    function returns an error. *)
Inductive Pass :=
| Sent (notif : notifpb.Notification)
| Return (err : error).

Definition loopBody (userID : string) (sub : ptr) (c : LoopCase) : M Pass :=
  match c with
  | CaseNotif sendErr =>
      notif ← recv sub;
      match sendErr with
      | Some err => log (LogErrorSending userID err);; mret (Return err)
      | None => mret (Sent notif)
      end
  | CaseDone ctxErr =>
      log (LogClientDisconnected userID);; mret (Return ctxErr)
  end.

(** One pass of the goroutine serving [sub], with the deferred function when
    the pass returns: the return, the delete, the close and the log line are
    taken as one step, with no step of another goroutine in between. The
    goroutine is gone once it has closed its channel. *)
Definition sessionStep (userID : string) (sub : ptr) (c : LoopCase) : M Pass :=
  x ← deref sub;
  if closed (ch x) then blocked
  else
    r ← loopBody userID sub c;
    match r with
    | Sent _ => mret r
    | Return _ => deferred userID sub;; mret r
    end.

Fixpoint sendLoop (userID : string) (sub : ptr) (cases : list LoopCase)
    : M (option error) :=
  match cases with
  | [] => mret None
  | c :: rest =>
      r ← sessionStep userID sub c;
      match r with
      | Sent _ => sendLoop userID sub rest
      | Return err => mret (Some err)
      end
  end.

(** [SubscribeToNotifications] is the gRPC streaming method called by the API
    gateway. [cases] lists the cases its send loop takes; the result is the
    subscriber it made and the error it returned, or [None] while it is
    still in the loop. *)
Definition SubscribeToNotifications (userID : string) (cases : list LoopCase)
    : M (ptr * option error) :=
  sub ← attach userID;
  r ← sendLoop userID sub cases;
  mret (sub, r).

(** ** subscribeToEvents *)

(** What the surroundings supply to the handling of one message: the values
    of [uuid.New().String()] and [timestamppb.Now().AsTime().String()], and
    how the [select] of [broadcast] is resolved. *)
Record Env := {
  uuid : string;
  now : string;
  elapsed : time.Duration;
  pickTimer : bool
}.

(** The callback subscribed to "user.created". The result is the
    notification it handed to [broadcast] and the way that call went,
    [None] when it returned before. *)
Definition onUserCreated (env : Env) (m : Msg)
    : M (option (notifpb.Notification * DeliveryOutcome)) :=
  log (LogReceivedUserCreated (Data m));;
  let (event, err) :=
    json.Unmarshal UserCreatedEvent_fields (Data m) zeroUserCreatedEvent in
  match err with
  | Some e => log (LogErrUnmarshalUserCreated e);; mret None
  | None =>
      let notif := {|
        notifpb.Id := uuid env;
        notifpb.UserId := UID event;
        notifpb.Message := "Welcome to the platform, " +:+ Username event +:+ "!";
        notifpb.Timestamp := now env
      |} in
      o ← broadcast (elapsed env) (pickTimer env) (UID event) notif;
      mret (Some (notif, o))
  end.

(** The callback subscribed to "bill.update". *)
Definition onBillUpdate (env : Env) (msg : Msg)
    : M (option (notifpb.Notification * DeliveryOutcome)) :=
  log (LogReceivedBillUpdate (Data msg));;
  let (event, err) :=
    json.Unmarshal billUpdate_fields (Data msg) zeroBillUpdate in
  match err with
  | Some _ => log LogErrUnmarshalBillUpdate;; mret None
  | None =>
      let notif := {|
        notifpb.Id := uuid env;
        notifpb.UserId := Id event;
        notifpb.Message := Message event;
        notifpb.Timestamp := now env
      |} in
      o ← broadcast (elapsed env) (pickTimer env) (Id event) notif;
      mret (Some (notif, o))
  end.

(** A message published on the bus, after both [s.nc.Subscribe] calls of
    [subscribeToEvents] have succeeded: it runs the callback subscribed to
    its subject, and no callback when there is none. *)
Definition onMsg (env : Env) (m : Msg)
    : M (option (notifpb.Notification * DeliveryOutcome)) :=
  if bool_decide (Subject m = "user.created") then onUserCreated env m
  else if bool_decide (Subject m = "bill.update") then onBillUpdate env m
  else mret None.

(** [subscribeToEvents] listens for all NATS events: the messages are
    handled one after the other. *)
Fixpoint subscribeToEvents (events : list (Env * Msg))
    : M (list (option (notifpb.Notification * DeliveryOutcome))) :=
  match events with
  | [] => mret []
  | (env, m) :: rest =>
      r ← onMsg env m;
      rs ← subscribeToEvents rest;
      mret (r :: rs)
  end.

(** ** The API gateway *)

Inductive GatewayReply :=
| BadRequest (message : string)   (** [writeJSONError(w, http.StatusBadRequest, ...)] *)
| UpgradeFailed
| Streaming (sub : ptr).

(** [handleWebSocket], up to the point where the stream of the notification
    service is open: [userID] is the query parameter "userId", [upgradeOk]
    tells whether [upgrader.Upgrade] succeeded. *)
Definition handleWebSocket (userID : string) (upgradeOk : bool) : M GatewayReply :=
  if bool_decide (userID = "") then mret (BadRequest "userId query parameter is required")
  else if negb upgradeOk then mret UpgradeFailed
  else sub ← attach userID; mret (Streaming sub).

(** ** Schedules *)

(** The steps the goroutines of the service take, each one atomic with
    respect to the others: a stream is opened, the goroutine serving a
    subscriber takes one pass of its loop, a bus message is handled from
    start to end, or a [broadcast] that looked its subscriber up earlier
    resolves its [select].

    The goroutine serving [sub] has the [userID] the subscriber was made
    with. Both calls of [broadcast] pass the [UserId] of the notification as
    [userID], and the map holds under a key only subscribers made for it
    ([consistent] below), so a [broadcast] in flight holds a notification
    for the user of its subscriber; other combinations are no steps. *)
Inductive Action :=
| Open (userID : string)
| Step (sub : ptr) (c : LoopCase)
| Publish (env : Env) (m : Msg)
| Select (elapsed : time.Duration) (pickTimer : bool) (sub : ptr) (notif : notifpb.Notification).

Definition exec (a : Action) : M unit :=
  match a with
  | Open userID => attach userID;; mret ()
  | Step sub c => x ← deref sub; sessionStep (userId x) sub c;; mret ()
  | Publish env m => onMsg env m;; mret ()
  | Select elapsed pickTimer sub notif =>
      x ← deref sub;
      if bool_decide (notifpb.UserId notif = userId x) then
        broadcastSelect elapsed pickTimer (userId x) sub notif;; mret ()
      else blocked
  end.

Fixpoint run (acts : list Action) : M unit :=
  match acts with
  | [] => mret ()
  | a :: rest => exec a;; run rest
  end.

(** The states the service can be in. *)
Definition reachable (s : notificationServer) : Prop :=
  ∃ acts, run acts newServer = Ok ((), s).

(** * Vocabulary of the statements *)

(** ** States written out *)

(** [s] with one more log line. *)
Definition logged (l : LogLine) (s : notificationServer) : notificationServer :=
  mkServer (subscribers s) (heap s) (logs s ++ [l]).

(** [s] with [notif] appended to the queue of [sub], which is [x] in [s]. *)
Definition enqueued (sub : ptr) (x : subscriber) (notif : notifpb.Notification)
    (s : notificationServer) : notificationServer :=
  mkServer (subscribers s)
    (<[sub := mkSubscriber (mkChan (buf (ch x) ++ [notif]) (cap (ch x)) false) (userId x)]>
       (heap s))
    (logs s).

(** The records queued for [sub]. *)
Definition queue (s : notificationServer) (sub : ptr) : list notifpb.Notification :=
  match heap s !! sub with
  | Some x => buf (ch x)
  | None => []
  end.

(** [s] after the goroutine serving [sub] has returned: the key [userID] is
    gone from the map, the channel of [sub] is closed with [q] left in it,
    and the log has the line [l] of the case that returned and the line of
    the deferred function. *)
Definition detached (userID : string) (sub : ptr) (x : subscriber)
    (q : list notifpb.Notification) (l : LogLine) (s : notificationServer)
    : notificationServer :=
  mkServer (delete userID (subscribers s))
    (<[sub := mkSubscriber (mkChan q (cap (ch x)) true) (userId x)]> (heap s))
    (logs s ++ [l; LogSubscriberDisconnected userID]).

(** [s] after the goroutine serving [sub] has taken the oldest record from
    its channel, [q] being the rest. *)
Definition dequeued (sub : ptr) (x : subscriber) (q : list notifpb.Notification)
    (s : notificationServer) : notificationServer :=
  mkServer (subscribers s)
    (<[sub := mkSubscriber (mkChan q (cap (ch x)) false) (userId x)]> (heap s))
    (logs s).

(** ** Invariants *)

(** Every entry of the map points to a subscriber made for that very key
    whose channel is open, and every channel has capacity 10 and holds no
    more than that. *)
Definition consistent (s : notificationServer) : Prop :=
  (∀ u sub, subscribers s !! u = Some sub →
     ∃ x, heap s !! sub = Some x ∧ userId x = u ∧ closed (ch x) = false) ∧
  (∀ sub x, heap s !! sub = Some x →
     cap (ch x) = 10 ∧ length (buf (ch x)) ≤ 10).

(** [a] cannot put [notif] on a queue: it is not the [select] of a
    [broadcast] of [notif], and not a message whose notification gets the
    [Id] of [notif]. *)
Definition foreign (notif : notifpb.Notification) (a : Action) : Prop :=
  match a with
  | Select _ _ _ n => n ≠ notif
  | Publish env _ => uuid env ≠ notifpb.Id notif
  | _ => True
  end.

(** Every queued record is for the user its subscriber was made for. *)
Definition routed (s : notificationServer) : Prop :=
  ∀ sub x n, heap s !! sub = Some x → n ∈ buf (ch x) → notifpb.UserId n = userId x.

(** ** Example states, messages and payloads *)

(** The state a schedule leads to from the start of the service. *)
Definition after (acts : list Action) : notificationServer :=
  match run acts newServer with
  | Ok (_, s) => s
  | _ => newServer
  end.

Definition welcomeAna : notifpb.Notification :=
  notifpb.mkNotification "7f9c" "u1" "Welcome to the platform, Ana!" "2025-01-01 00:00:00 +0000 UTC".

(** One stream for "u1", its queue filled by ten deliveries. *)
Definition saturated : list Action :=
  Open "u1" :: replicate 10 (Select 0 false 0 welcomeAna).

Definition billFor (userID : string) : Msg :=
  {| Subject := "bill.update";
     Data := Some (json.Object [("Id", json.Str userID);
                                ("Message", json.Str "Your bill was updated to 42.00")]) |}.

Definition env0 : Env :=
  {| uuid := "5d41"; now := "2025-01-01 00:00:00 +0000 UTC"; elapsed := 0; pickTimer := false |}.

(** Streams for "u1" and "u2", and a bill for each. *)
Definition twoStreams : list Action :=
  [Open "u1"; Open "u2"; Publish env0 (billFor "u1"); Publish env0 (billFor "u2")].

(** The error [json.Unmarshal] gives in the callback a message runs. *)
Definition decodeError (m : Msg) : option json.Error :=
  if bool_decide (Subject m = "user.created") then
    (json.Unmarshal UserCreatedEvent_fields (Data m) zeroUserCreatedEvent).2
  else if bool_decide (Subject m = "bill.update") then
    (json.Unmarshal billUpdate_fields (Data m) zeroBillUpdate).2
  else None.

(** The line that callback logs first, and the one it logs for the error. *)
Definition receivedLine (m : Msg) : LogLine :=
  if bool_decide (Subject m = "user.created") then LogReceivedUserCreated (Data m)
  else LogReceivedBillUpdate (Data m).

Definition errorLine (m : Msg) (e : json.Error) : LogLine :=
  if bool_decide (Subject m = "user.created") then LogErrUnmarshalUserCreated e
  else LogErrUnmarshalBillUpdate.

(** What a call returned, when it returned. *)
Definition result {A} (r : Res (A * notificationServer)) : option A :=
  match r with
  | Ok (a, _) => Some a
  | _ => None
  end.

(** The payload [{"uid": uid, "username": username}]. *)
Definition userCreatedPayload (uid username : string) : option json.Value :=
  Some (json.Object [("uid", json.Str uid); ("username", json.Str username)]).

(** The payload [{"id": id, "message": message}], its keys in lower case:
    they select the fields [Id] and [Message] by their folded names. *)
Definition billUpdatePayload (id message : string) : option json.Value :=
  Some (json.Object [("id", json.Str id); ("message", json.Str message)]).

(** A bill notification for "u1". *)
Definition billAna : notifpb.Notification :=
  notifpb.mkNotification "9a01" "u1" "Your bill was updated to 42.00"
    "2025-01-01 00:00:01 +0000 UTC".

(** Surroundings in which the timer of [broadcast] has fired. *)
Definition late : Env :=
  {| uuid := "c3f0"; now := "2025-01-01 00:00:02 +0000 UTC";
     elapsed := 1 * time.Second; pickTimer := false |}.

(** * The services around the notification service *)

(** What a gRPC method or a database call comes back with. *)
Inductive Reply (A : Type) :=
| Done (a : A)
| Failed (err : error).
Arguments Done {A} _.
Arguments Failed {A} _.

(** ** unicode/utf8 and json.Marshal, as far as the event structs use them *)

Module utf8.

(** The table [first]: what the first byte of an encoding tells. 0xF0 stands
    for ASCII and 0xF1 for a byte that starts no encoding; otherwise the low
    three bits are the size of the encoding and the high four the index
    into [acceptRanges] for the second byte. *)
Definition first (b : nat) : nat :=
  if b <? 128 then 240
  else if b <? 194 then 241
  else if b <? 224 then 2
  else if b =? 224 then 19
  else if b <? 237 then 3
  else if b =? 237 then 35
  else if b <? 240 then 3
  else if b =? 240 then 52
  else if b <? 244 then 4
  else if b =? 244 then 68
  else 241.

Definition acceptRanges (i : nat) : nat * nat :=
  match i with
  | 0 => (128, 191)
  | 1 => (160, 191)
  | 2 => (128, 159)
  | 3 => (144, 191)
  | _ => (128, 143)
  end.

(** A byte between [locb] and [hicb]. *)
Definition continuation (c : ascii) : bool :=
  (128 <=? nat_of_ascii c) && (nat_of_ascii c <=? 191).

(** The encoding of U+FFFD. *)
Definition RuneError : string :=
  String (ascii_of_nat 239) (String (ascii_of_nat 191) (String (ascii_of_nat 189) EmptyString)).

(** The string a JSON text written by [json.Marshal] holds for [s]: the
    encoder goes through [s] with [utf8.DecodeRuneInString] and writes
    U+FFFD for every byte at which that finds no encoding (RuneError with
    size 1); everything else comes back from the text as it went in. *)
Fixpoint coerce (s : string) : string :=
  match s with
  | EmptyString => EmptyString
  | String c0 t1 =>
      let x := first (nat_of_ascii c0) in
      if 240 <=? x then
        if x =? 240 then String c0 (coerce t1) else RuneError +:+ coerce t1
      else
        let sz := x `mod` 8 in
        let accept := acceptRanges (x `div` 16) in
        match t1 with
        | EmptyString => RuneError
        | String c1 t2 =>
            if (nat_of_ascii c1 <? accept.1) || (accept.2 <? nat_of_ascii c1) then
              RuneError +:+ coerce t1
            else if sz <=? 2 then String c0 (String c1 (coerce t2))
            else
              match t2 with
              | EmptyString => RuneError +:+ coerce t1
              | String c2 t3 =>
                  if negb (continuation c2) then RuneError +:+ coerce t1
                  else if sz <=? 3 then String c0 (String c1 (String c2 (coerce t3)))
                  else
                    match t3 with
                    | EmptyString => RuneError +:+ coerce t1
                    | String c3 t4 =>
                        if negb (continuation c3) then RuneError +:+ coerce t1
                        else String c0 (String c1 (String c2 (String c3 (coerce t4))))
                    end
              end
        end
  end.

(** [utf8.ValidString]. *)
Fixpoint ValidString (s : string) : bool :=
  match s with
  | EmptyString => true
  | String si t1 =>
      if nat_of_ascii si <? 128 then ValidString t1
      else
        let x := first (nat_of_ascii si) in
        if x =? 241 then false
        else
          let size := x `mod` 8 in
          let accept := acceptRanges (x `div` 16) in
          match t1 with
          | EmptyString => false
          | String c1 t2 =>
              if (nat_of_ascii c1 <? accept.1) || (accept.2 <? nat_of_ascii c1) then false
              else if size =? 2 then ValidString t2
              else
                match t2 with
                | EmptyString => false
                | String c2 t3 =>
                    if negb (continuation c2) then false
                    else if size =? 3 then ValidString t3
                    else
                      match t3 with
                      | EmptyString => false
                      | String c3 t4 =>
                          if negb (continuation c3) then false else ValidString t4
                      end
                end
          end
  end.

End utf8.

Module jsonenc.

(** A struct with string fields only, as [json.Marshal] sees it: the key
    of each field and its value. *)
Record OutField (T : Type) := mkOutField { key : string; load : T → string }.
Arguments mkOutField {T} _ _.
Arguments key {T} _.
Arguments load {T} _ _.

(** [json.Marshal(t)] for such a struct: an object with the fields in the
    order of their declaration. It has no error for these types. *)
Definition Marshal {T} (fields : list (OutField T)) (t : T)
  : json.Value * option json.Error :=
  (json.Object (map (λ f, (key f, json.Str (utf8.coerce (load f t)))) fields), None).

End jsonenc.

(** [UserCreatedEvent] as user-ms writes it. *)
Definition UserCreatedEvent_out : list (jsonenc.OutField UserCreatedEvent) :=
  [ jsonenc.mkOutField "uid" UID; jsonenc.mkOutField "username" Username ].

(** ** NATS *)

(** [nc.Publish(subject, data)] on a connection that is up or not: the
    messages that went out, oldest first. Both services drop the error. *)
Module nats.

Definition Publish (connected : bool) (subject : string) (data : json.Value)
    (sent : list Msg) : list Msg :=
  if connected then sent ++ [{| Subject := subject; Data := Some data |}] else sent.

End nats.

(** ** database/sql and lib/pq *)

Module sql.

Definition quote : string := String (ascii_of_nat 34) EmptyString.

(** The text of the error for an insert that meets a taken primary key. *)
Definition uniqueViolation (constraint : string) : string :=
  "pq: duplicate key value violates unique constraint " +:+ quote +:+ constraint +:+ quote.

(** [sql.ErrNoRows]. *)
Definition ErrNoRows : string := "sql: no rows in result set".

End sql.

(** ** user-ms *)

Module userms.

(** A row of [users (id TEXT PRIMARY KEY, email TEXT, password TEXT)]. *)
Record row := mkRow { id : string; email : string; password : string }.

Inductive LogLine :=
| LogNotPresent
| LogHashFailed
| LogMarshallingError
| LogQueryFailed (err : error)
| LogUserBuilt.

(** [server], with the table [users] in the order the rows came in, the
    messages published on [nc] and the log. *)
Record server := mkServer {
  db : list row;
  nc : list Msg;
  logs : list LogLine
}.

Definition log (l : LogLine) (s : server) : server :=
  mkServer (db s) (nc s) (logs s ++ [l]).

(** What the surroundings supply to a call of [Register]: the result of
    [bcrypt.GenerateFromPassword], the value of [uuid.New().String()], the
    failure of the database if it fails, and whether NATS is connected. *)
Record RegisterEnv := {
  hashed : option string;
  uuid : string;
  dbFault : option error;
  connected : bool
}.

(** [s.db.Exec("INSERT INTO users (id, email, password) VALUES ($1, $2, $3)", ...)]. *)
Definition insertUser (fault : option error) (r : row) (s : server)
    : option error * server :=
  match fault with
  | Some e => (Some e, s)
  | None =>
      if existsb (λ r', bool_decide (id r' = id r)) (db s) then
        (Some (sql.uniqueViolation "users_pkey"), s)
      else (None, mkServer (db s ++ [r]) (nc s) (logs s))
  end.

Definition Register (env : RegisterEnv) (Email Password : string) (s : server)
    : Reply string * server :=
  if bool_decide (Email = "") || bool_decide (Password = "") then
    (Failed "bad input", log LogNotPresent s)
  else
    match hashed env with
    | None => (Failed "internal server error", log LogHashFailed s)
    | Some hashedPassword =>
        let userID := uuid env in
        match insertUser (dbFault env) (mkRow userID Email hashedPassword) s with
        | (Some err, s1) => (Failed ("could not register user: " +:+ err), s1)
        | (None, s1) =>
            let eventMsg := {| UID := userID; Username := Email |} in
            match jsonenc.Marshal UserCreatedEvent_out eventMsg with
            | (_, Some _) => (Failed "internal server", log LogMarshallingError s1)
            | (bytes, None) =>
                (Done userID,
                 mkServer (db s1) (nats.Publish (connected env) "user.created" bytes (nc s1))
                   (logs s1))
            end
        end
    end.

(** What the surroundings supply to a call of [Login]: the failure of the
    database if it fails, and which of the rows with the email the
    database gives first (the query has no order). *)
Record LoginEnv := {
  queryFault : option error;
  firstRow : nat
}.

Record User := { User_Id : string; User_Email : string }.
Record LoginResponse := { Token : string; LoginUser : User }.

Section bcrypt.

(** [bcrypt.CompareHashAndPassword(hash, password) == nil]. *)
Context (CompareHashAndPassword : string → string → bool).

Definition Login (env : LoginEnv) (Email Password : string) (s : server)
    : Reply LoginResponse * server :=
  match queryFault env with
  | Some err => (Failed "internal server error", log (LogQueryFailed err) s)
  | None =>
      let rows := filter (λ r, email r = Email) (db s) in
      match rows !! (firstRow env `mod` length rows) with
      | None => (Failed "invalid credentials", s)
      | Some r =>
          if CompareHashAndPassword (password r) Password then
            (Done {| Token := "sample-jwt-token-for-" +:+ id r;
                     LoginUser := {| User_Id := id r; User_Email := Email |} |},
             log LogUserBuilt s)
          else (Failed "invalid credentials", s)
      end
  end.

End bcrypt.

End userms.

(** ** billing-ms *)

Module billingms.

Inductive LogLine :=
| LogUnmarshalError (e : json.Error)
| LogReceivedNewUser (uid : string)
| LogCreateFailed (uid : string) (err : error)
| LogMarshallingError.

(** [server], with the table [billing (user_id TEXT PRIMARY KEY, amount REAL)],
    the messages published on [nc] and the log. *)
Record server := mkServer {
  db : gmap string float;
  nc : list Msg;
  logs : list LogLine
}.

Definition log (l : LogLine) (s : server) : server :=
  mkServer (db s) (nc s) (logs s ++ [l]).

(** The struct without a name that [UpdateBilling] publishes. It has no
    tags, so the keys are the field names. *)
Record msg := mkMsg { Id : string; Message : string }.

Definition msg_out : list (jsonenc.OutField msg) :=
  [ jsonenc.mkOutField "Id" Id; jsonenc.mkOutField "Message" Message ].

Section float64.

(** [real x] is what a column of type REAL gives back for the float64 [x]
    written to it, and [fixed2 x] is [fmt.Sprintf("%.2f", x)]. *)
Context (real : float → float) (fixed2 : float → string).

(** [db.Exec("INSERT INTO billing (user_id, amount) VALUES ($1, $2)", ...)];
    [fault] is the failure of the database, if it fails. *)
Definition insertBilling (fault : option error) (user_id : string) (amount : float)
    (s : server) : option error * server :=
  match fault with
  | Some e => (Some e, s)
  | None =>
      match db s !! user_id with
      | Some _ => (Some (sql.uniqueViolation "billing_pkey"), s)
      | None => (None, mkServer (<[user_id := real amount]> (db s)) (nc s) (logs s))
      end
  end.

(** [db.Exec("UPDATE billing SET amount = $1 WHERE user_id = $2", ...)]: no
    error when no row has the key. *)
Definition updateBilling (fault : option error) (amount : float) (user_id : string)
    (s : server) : option error * server :=
  match fault with
  | Some e => (Some e, s)
  | None =>
      match db s !! user_id with
      | Some _ => (None, mkServer (<[user_id := real amount]> (db s)) (nc s) (logs s))
      | None => (None, s)
      end
  end.

Definition CreateBillingAccount (fault : option error) (UserId : string) (s : server)
    : Reply bool * server :=
  match insertBilling fault UserId 0%float s with
  | (Some err, s1) => (Failed ("could not create billing account: " +:+ err), s1)
  | (None, s1) => (Done true, s1)
  end.

Definition GetBilling (fault : option error) (UserId : string) (s : server)
    : Reply float :=
  match fault with
  | Some err => Failed ("could not get billing: " +:+ err)
  | None =>
      match db s !! UserId with
      | None => Failed ("could not get billing: " +:+ sql.ErrNoRows)
      | Some amount => Done amount
      end
  end.

Definition UpdateBilling (fault : option error) (connected : bool)
    (UserId : string) (Amount : float) (s : server) : Reply bool * server :=
  match updateBilling fault Amount UserId s with
  | (Some err, s1) => (Failed ("could not update billing: " +:+ err), s1)
  | (None, s1) =>
      let msg0 := mkMsg UserId ("Your bill was updated to " +:+ fixed2 Amount) in
      let msg1 :=
        if (100 <? Amount)%float then
          mkMsg (Id msg0)
            ("Dr. Prakash Metre made you poor!! bill updated to " +:+ fixed2 Amount)
        else msg0 in
      match jsonenc.Marshal msg_out msg1 with
      | (_, Some _) => (Failed "internal server", log LogMarshallingError s1)
      | (msgBytes, None) =>
          (Done true,
           mkServer (db s1) (nats.Publish connected "bill.update" msgBytes (nc s1))
             (logs s1))
      end
  end.

(** The callback [main] subscribes to "user.created". *)
Definition onUserCreated (fault : option error) (m : Msg) (s : server) : server :=
  let (event, err) :=
    json.Unmarshal UserCreatedEvent_fields (Data m) zeroUserCreatedEvent in
  match err with
  | Some e => log (LogUnmarshalError e) s
  | None =>
      let s1 := log (LogReceivedNewUser (UID event)) s in
      match insertBilling fault (UID event) 0%float s1 with
      | (Some err, s2) => log (LogCreateFailed (UID event) err) s2
      | (None, s2) => s2
      end
  end.

(** What the NATS client of the service does with a message: the callback
    of the only subscription if the subject is its own. *)
Definition onMsg (fault : option error) (m : Msg) (s : server) : server :=
  if bool_decide (Subject m = "user.created") then onUserCreated fault m s else s.

End float64.

End billingms.

(** ** api-gateway: the handlers of the two services above *)

Module gateway.

(** [strings.Contains]. *)
Fixpoint Contains (s substr : string) : bool :=
  String.prefix substr s ||
  match s with
  | EmptyString => false
  | String _ rest => Contains rest substr
  end.

(** The text of the error the gRPC client returns when the method of the
    service returned an error made by [fmt.Errorf]: the server sends it
    with the code Unknown. *)
Definition rpcError (desc : string) : string :=
  "rpc error: code = Unknown desc = " +:+ desc.

(** A unary call that reaches the service. *)
Definition invoke {A} (r : Reply A) : Reply A :=
  match r with
  | Done res => Done res
  | Failed err => Failed (rpcError err)
  end.

Definition StatusOK : nat := 200.
Definition StatusBadRequest : nat := 400.
Definition StatusUnauthorized : nat := 401.
Definition StatusInternalServerError : nat := 500.

(** What [json.NewEncoder(w).Encode] is given: the map with the key
    "error", or the response of the service. *)
Inductive Body (A : Type) :=
| ErrorBody (message : string)
| ResultBody (res : A).
Arguments ErrorBody {A} _.
Arguments ResultBody {A} _.

(** [http.ResponseWriter]: the header, the status once it is written, and
    what was written to the body. *)
Record ResponseWriter (A : Type) := mkResponseWriter {
  header : gmap string string;
  status : option nat;
  body : list (Body A)
}.
Arguments mkResponseWriter {A} _ _ _.
Arguments header {A} _.
Arguments status {A} _.
Arguments body {A} _.

Definition newResponseWriter {A} : ResponseWriter A := mkResponseWriter ∅ None [].

(** [w.WriteHeader]: the first call decides. *)
Definition WriteHeader {A} (code : nat) (w : ResponseWriter A) : ResponseWriter A :=
  match status w with
  | Some _ => w
  | None => mkResponseWriter (header w) (Some code) (body w)
  end.

Definition writeJSON {A} (code : nat) (v : Body A) (w : ResponseWriter A)
    : ResponseWriter A :=
  let w1 := mkResponseWriter (<["Content-Type" := "application/json"]> (header w))
              (status w) (body w) in
  let w2 := WriteHeader code w1 in
  mkResponseWriter (header w2) (status w2) (body w2 ++ [v]).

Definition writeJSONError {A} (code : nat) (message : string) (w : ResponseWriter A)
    : ResponseWriter A :=
  writeJSON code (ErrorBody message) w.

(** [handleRegister]: [decoded] is the request [Decode] read from the
    body, [None] when it failed; [env] and [u] are the surroundings and
    the state of user-ms at the call. *)
Definition handleRegister (env : userms.RegisterEnv) (decoded : option (string * string))
    (u : userms.server) (w : ResponseWriter string)
    : ResponseWriter string * userms.server :=
  match decoded with
  | None => (writeJSONError StatusBadRequest "Invalid request body" w, u)
  | Some (Email, Password) =>
      let (res, u1) := userms.Register env Email Password u in
      match invoke res with
      | Failed err => (writeJSONError StatusInternalServerError err w, u1)
      | Done res => (writeJSON StatusOK (ResultBody res) w, u1)
      end
  end.

Section bcrypt.

Context (CompareHashAndPassword : string → string → bool).

Definition handleLogin (env : userms.LoginEnv) (decoded : option (string * string))
    (u : userms.server) (w : ResponseWriter userms.LoginResponse)
    : ResponseWriter userms.LoginResponse * userms.server :=
  match decoded with
  | None => (writeJSONError StatusBadRequest "Invalid request body" w, u)
  | Some (Email, Password) =>
      let (res, u1) := userms.Login CompareHashAndPassword env Email Password u in
      match invoke res with
      | Failed err =>
          if Contains err "invalid credentials" then
            (writeJSONError StatusUnauthorized err w, u1)
          else
            (writeJSONError StatusInternalServerError "An internal error occurred" w, u1)
      | Done res => (writeJSON StatusOK (ResultBody res) w, u1)
      end
  end.

End bcrypt.

Section float64.

Context (real : float → float) (fixed2 : float → string).

(** [handleGetBillingInfo]: [userID] is the path value "user_id". *)
Definition handleGetBillingInfo (fault : option error) (userID : string)
    (b : billingms.server) (w : ResponseWriter float) : ResponseWriter float :=
  if bool_decide (userID = "") then
    writeJSONError StatusBadRequest "User ID is required" w
  else
    match invoke (billingms.GetBilling fault userID b) with
    | Failed err => writeJSONError StatusInternalServerError err w
    | Done res => writeJSON StatusOK (ResultBody res) w
    end.

Definition handleUpdateBilling (fault : option error) (connected : bool)
    (decoded : option (string * float)) (b : billingms.server) (w : ResponseWriter bool)
    : ResponseWriter bool * billingms.server :=
  match decoded with
  | None => (writeJSONError StatusBadRequest "Invalid request body" w, b)
  | Some (UserId, Amount) =>
      let (res, b1) := billingms.UpdateBilling real fixed2 fault connected UserId Amount b in
      match invoke res with
      | Failed err => (writeJSONError StatusInternalServerError err w, b1)
      | Done res => (writeJSON StatusOK (ResultBody res) w, b1)
      end
  end.

End float64.

End gateway.

(** ** Examples for the statements about these services *)

Definition noUsers : userms.server := userms.mkServer [] [] [].

Definition noAccounts : billingms.server := billingms.mkServer ∅ [] [].

(** A registration on a connected service, and a second one. *)
Definition registerAna : userms.RegisterEnv :=
  {| userms.hashed := Some "hash-of-pw"; userms.uuid := "u1";
     userms.dbFault := None; userms.connected := true |}.

Definition registerAgain : userms.RegisterEnv :=
  {| userms.hashed := Some "hash-of-other"; userms.uuid := "u2";
     userms.dbFault := None; userms.connected := true |}.

(** A comparison that accepts the password a hash of the examples names. *)
Definition compareExample (hash password : string) : bool :=
  bool_decide (hash = "hash-of-" +:+ password).

(** The database gives the row stored first, or the one stored second. *)
Definition firstStored : userms.LoginEnv :=
  {| userms.queryFault := None; userms.firstRow := 0 |}.

Definition secondStored : userms.LoginEnv :=
  {| userms.queryFault := None; userms.firstRow := 1 |}.

(** An email with a letter of two bytes, U+00E9. *)
Definition emailRene : string :=
  "ren" +:+ String (ascii_of_nat 195) (String (ascii_of_nat 169) "@example.com").

(** 0 and 250 are floats of single precision: REAL gives them back. *)
Definition exact (x : float) : float := x.

(** ["%.2f"] at 250. *)
Definition fixed2At250 (x : float) : string := "250.00".

(** ** The send loop and its output *)

(** [sendLoop], together with the records it handed to [stream.Send]
    successfully, in the order in which it did. *)
Fixpoint sendLoopSent (userID : string) (sub : ptr) (cases : list LoopCase)
    : M (list notifpb.Notification * option error) :=
  match cases with
  | [] => mret ([], None)
  | c :: rest =>
      r ← sessionStep userID sub c;
      match r with
      | Sent notif =>
          '(sent, err) ← sendLoopSent userID sub rest;
          mret (notif :: sent, err)
      | Return err => mret ([], Some err)
      end
  end.

(** Calls of [broadcast] for the same user, one after the other, each
    resolved at once. *)
Fixpoint broadcastAll (userID : string) (notifs : list notifpb.Notification)
    : M (list DeliveryOutcome) :=
  match notifs with
  | [] => mret []
  | notif :: rest =>
      o ← broadcast 0 false userID notif;
      os ← broadcastAll userID rest;
      mret (o :: os)
  end.

(** * Properties *)

(** ** Reading the results of monadic code *)

Lemma bind_Ok {A B} (m : M A) (f : A → M B) s r :
  (m ≫= f) s = Ok r ↔ ∃ a s', m s = Ok (a, s') ∧ f a s' = Ok r.
Proof.
  unfold mbind, M_bind. destruct (m s) as [[a s']| |]; split.
  - intros H. by exists a, s'.
  - by intros (a0 & s0 & [= -> ->] & H).
  - done.
  - by intros (? & ? & ? & _).
  - done.
  - by intros (? & ? & ? & _).
Qed.

Lemma bind_eq {A B} (m : M A) (f : A → M B) s a s' :
  m s = Ok (a, s') → (m ≫= f) s = f a s'.
Proof. unfold mbind, M_bind. by intros ->. Qed.

Lemma deref_Ok sub s x s' : deref sub s = Ok (x, s') ↔ heap s !! sub = Some x ∧ s' = s.
Proof.
  unfold deref. destruct (heap s !! sub) as [y|]; split.
  - by intros [= -> ->].
  - by intros [[= ->] ->].
  - done.
  - by intros [? _].
Qed.

Lemma deref_eq sub s x : heap s !! sub = Some x → deref sub s = Ok (x, s).
Proof. intros H. by apply deref_Ok. Qed.

Lemma setChan_eq sub c s x :
  heap s !! sub = Some x →
  setChan sub c s
  = Ok ((), mkServer (subscribers s) (<[sub := mkSubscriber c (userId x)]> (heap s)) (logs s)).
Proof. unfold setChan. by intros ->. Qed.

(** Decomposition of a hypothesis [H : code s = Ok r] along the first bind
    of [code]: [a] and [s1] are the result and the state in between, [H1]
    says so, and [H] is left with the rest. *)
Tactic Notation "bind_inv" hyp(H) "as" ident(a) ident(s1) ident(H1) :=
  apply bind_Ok in H; destruct H as (a & s1 & H1 & H).

(** ** broadcast, case by case *)

Section broadcast_cases.
Context (elapsed : time.Duration) (pickTimer : bool).
Context (userID : string) (notif : notifpb.Notification) (s : notificationServer).

Lemma broadcastSelect_send sub x :
  heap s !! sub = Some x →
  closed (ch x) = false →
  length (buf (ch x)) < cap (ch x) →
  time.After (1 * time.Second) elapsed && pickTimer = false →
  broadcastSelect elapsed pickTimer userID sub notif s
  = Ok (Delivered, logged (LogBroadcasted userID) (enqueued sub x notif s)).
Proof.
  intros Hx Hopen Hroom Hpick. unfold broadcastSelect.
  rewrite (bind_eq _ _ _ _ _ (deref_eq _ _ _ Hx)).
  unfold trySend. rewrite Hopen.
  destruct (Nat.ltb_spec (length (buf (ch x))) (cap (ch x))) as [_|?]; [|lia].
  rewrite orb_false_r, Hpick.
  by rewrite (bind_eq _ _ _ _ _ (setChan_eq _ _ _ _ Hx)).
Qed.

Lemma broadcastSelect_timer sub x :
  heap s !! sub = Some x →
  closed (ch x) = false →
  cap (ch x) ≤ length (buf (ch x)) →
  (1 * time.Second ≤ elapsed)%Z →
  broadcastSelect elapsed pickTimer userID sub notif s
  = Ok (Dropped, logged (LogChannelFull userID) s).
Proof.
  intros Hx Hopen Hfull Hlate. unfold broadcastSelect.
  rewrite (bind_eq _ _ _ _ _ (deref_eq _ _ _ Hx)).
  unfold trySend, time.After. rewrite Hopen.
  destruct (Nat.ltb_spec (length (buf (ch x))) (cap (ch x))) as [?|_]; [lia|].
  destruct (Z.leb_spec (1 * time.Second) elapsed) as [_|?]; [|lia].
  by rewrite orb_true_r.
Qed.

Lemma broadcastSelect_waits sub x :
  heap s !! sub = Some x →
  closed (ch x) = false →
  cap (ch x) ≤ length (buf (ch x)) →
  (elapsed < 1 * time.Second)%Z →
  broadcastSelect elapsed pickTimer userID sub notif s = Blocked.
Proof.
  intros Hx Hopen Hfull Hearly. unfold broadcastSelect.
  rewrite (bind_eq _ _ _ _ _ (deref_eq _ _ _ Hx)).
  unfold trySend, time.After. rewrite Hopen.
  destruct (Nat.ltb_spec (length (buf (ch x))) (cap (ch x))) as [?|_]; [lia|].
  by destruct (Z.leb_spec (1 * time.Second) elapsed) as [?|_]; [lia|].
Qed.

Lemma broadcastSelect_closed sub x :
  heap s !! sub = Some x →
  closed (ch x) = true →
  time.After (1 * time.Second) elapsed && pickTimer = false →
  broadcastSelect elapsed pickTimer userID sub notif s = Panic "send on closed channel".
Proof.
  intros Hx Hclosed Hpick. unfold broadcastSelect.
  rewrite (bind_eq _ _ _ _ _ (deref_eq _ _ _ Hx)).
  unfold trySend. rewrite Hclosed. by rewrite orb_false_r, Hpick.
Qed.

(** Whatever way the [select] goes, it leaves the map alone, and in the
    store it can only append [notif] to the queue of [sub]. *)
Lemma broadcastSelect_Ok sub o s' :
  broadcastSelect elapsed pickTimer userID sub notif s = Ok (o, s') →
  ∃ x, heap s !! sub = Some x ∧
    ((o = Dropped ∧ s' = logged (LogChannelFull userID) s) ∨
     (o = Delivered ∧ closed (ch x) = false ∧ length (buf (ch x)) < cap (ch x) ∧
      s' = logged (LogBroadcasted userID) (enqueued sub x notif s))).
Proof.
  unfold broadcastSelect. intros H. bind_inv H as a s1 H0.
  apply deref_Ok in H0 as [Hx ->]. exists a. split; [done|].
  revert H. unfold trySend.
  destruct (closed (ch a)) eqn:Hc; simpl.
  - destruct (time.After _ _ && (pickTimer || false)); [|done].
    intros [= <- <-]. by left.
  - destruct (Nat.ltb_spec (length (buf (ch a))) (cap (ch a))) as [Hlt|Hge]; simpl.
    + destruct (time.After _ _ && (pickTimer || false)).
      * intros [= <- <-]. by left.
      * rewrite (bind_eq _ _ _ _ _ (setChan_eq _ _ _ _ Hx)).
        intros [= <- <-]. by right.
    + destruct (time.After _ _ && (pickTimer || true)); [|done].
      intros [= <- <-]. by left.
Qed.

Lemma broadcast_absent :
  subscribers s !! userID = None →
  broadcast elapsed pickTimer userID notif s
  = Ok (NoSubscriber, logged (LogNoActiveSubscribers userID) s).
Proof. intros H. unfold broadcast, mapLookup, mbind, M_bind. by rewrite H. Qed.

Lemma broadcast_present sub :
  subscribers s !! userID = Some sub →
  broadcast elapsed pickTimer userID notif s
  = broadcastSelect elapsed pickTimer userID sub notif s.
Proof. intros H. unfold broadcast, mapLookup, mbind at 1, M_bind. by rewrite H. Qed.

End broadcast_cases.

(** ** The stream session, case by case *)

Ltac unfold_M :=
  unfold sessionStep, loopBody, deferred, attach, close, recv, new, setChan, deref,
    mapDelete, mapStore, mapLookup, log, panic, blocked, mbind, M_bind, mret, M_ret;
  simpl.

Section session_cases.
Context (userID : string) (sub : ptr) (x : subscriber) (s : notificationServer).
Hypothesis Hx : heap s !! sub = Some x.
Hypothesis Hopen : closed (ch x) = false.

Lemma sessionStep_done ctxErr :
  sessionStep userID sub (CaseDone ctxErr) s
  = Ok (Return ctxErr,
        detached userID sub x (buf (ch x)) (LogClientDisconnected userID) s).
Proof.
  unfold_M. repeat (first [rewrite Hx | rewrite Hopen]; simpl).
  unfold detached. by rewrite <- app_assoc.
Qed.

Lemma sessionStep_sendError n rest err :
  buf (ch x) = n :: rest →
  sessionStep userID sub (CaseNotif (Some err)) s
  = Ok (Return err, detached userID sub x rest (LogErrorSending userID err) s).
Proof.
  intros Hbuf. unfold_M.
  repeat (first [rewrite Hx | rewrite Hopen | rewrite Hbuf
                | rewrite list_lookup_insert_eq by eauto using lookup_lt_Some];
          simpl).
  unfold detached. by rewrite list_insert_insert_eq, <- app_assoc.
Qed.

Lemma sessionStep_sent n rest :
  buf (ch x) = n :: rest →
  sessionStep userID sub (CaseNotif None) s = Ok (Sent n, dequeued sub x rest s).
Proof.
  intros Hbuf. unfold_M.
  by repeat (first [rewrite Hx | rewrite Hopen | rewrite Hbuf]; simpl).
Qed.

Lemma sessionStep_empty sendErr :
  buf (ch x) = [] →
  sessionStep userID sub (CaseNotif sendErr) s = Blocked.
Proof.
  intros Hbuf. unfold_M.
  by repeat (first [rewrite Hx | rewrite Hopen | rewrite Hbuf]; simpl).
Qed.

End session_cases.

(** The goroutine of a subscriber that is closed takes no step. *)
Lemma sessionStep_gone userID sub c s x :
  heap s !! sub = Some x → closed (ch x) = true →
  sessionStep userID sub c s = Blocked.
Proof. intros Hx Hc. unfold_M. by repeat (first [rewrite Hx | rewrite Hc]; simpl). Qed.

(** Every pass that completes is one of the three above. *)
Lemma sessionStep_Ok userID sub c s r s' :
  sessionStep userID sub c s = Ok (r, s') →
  ∃ x, heap s !! sub = Some x ∧ closed (ch x) = false ∧
    match r with
    | Sent n =>
        ∃ rest, c = CaseNotif None ∧ buf (ch x) = n :: rest ∧
                s' = dequeued sub x rest s
    | Return err =>
        (c = CaseDone err ∧
         s' = detached userID sub x (buf (ch x)) (LogClientDisconnected userID) s) ∨
        (∃ n rest, c = CaseNotif (Some err) ∧ buf (ch x) = n :: rest ∧
                   s' = detached userID sub x rest (LogErrorSending userID err) s)
    end.
Proof.
  intros H.
  destruct (heap s !! sub) as [x|] eqn:Hx; [|by revert H; unfold_M; rewrite Hx].
  destruct (closed (ch x)) eqn:Hc; [by rewrite (sessionStep_gone _ _ _ _ _ Hx Hc) in H|].
  exists x. split_and!; [done..|].
  destruct c as [[err|]|err].
  - destruct (buf (ch x)) as [|n rest] eqn:Hbuf.
    + by rewrite (sessionStep_empty _ _ _ _ Hx Hc _ Hbuf) in H.
    + rewrite (sessionStep_sendError _ _ _ _ Hx Hc _ _ _ Hbuf) in H.
      injection H as <- <-. right. by exists n, rest.
  - destruct (buf (ch x)) as [|n rest] eqn:Hbuf.
    + by rewrite (sessionStep_empty _ _ _ _ Hx Hc _ Hbuf) in H.
    + rewrite (sessionStep_sent _ _ _ _ Hx Hc _ _ Hbuf) in H.
      injection H as <- <-. by exists rest.
  - rewrite (sessionStep_done _ _ _ _ Hx Hc) in H. injection H as <- <-. by left.
Qed.

Lemma attach_eq userID s :
  attach userID s
  = Ok (length (heap s),
        mkServer (<[userID := length (heap s)]> (subscribers s))
                 (heap s ++ [mkSubscriber (make 10) userID])
                 (logs s ++ [LogNewSubscriber userID])).
Proof. done. Qed.

(** ** An invariant of the service *)

Lemma consistent_newServer : consistent newServer.
Proof. split; intros ??; simpl; [by rewrite lookup_empty | done]. Qed.

Lemma consistent_logged l s : consistent s → consistent (logged l s).
Proof. done. Qed.

(** A change of the queue of [sub] that keeps it within bounds. *)
Lemma consistent_requeue sub x q s :
  consistent s → heap s !! sub = Some x → length q ≤ cap (ch x) →
  consistent
    (mkServer (subscribers s)
       (<[sub := mkSubscriber (mkChan q (cap (ch x)) (closed (ch x))) (userId x)]> (heap s))
       (logs s)).
Proof.
  intros [Hmap Hcap] Hx Hq. split; simpl.
  - intros u p Hu. destruct (Hmap u p Hu) as (y & Hy & Hid & Hopen).
    destruct (decide (sub = p)) as [->|Hne].
    + rewrite list_lookup_insert_eq by eauto using lookup_lt_Some.
      eexists. split; [done|]. simpl. by simplify_eq.
    + rewrite list_lookup_insert_ne by done. eauto.
  - intros p y. destruct (decide (sub = p)) as [->|Hne].
    + rewrite list_lookup_insert_eq by eauto using lookup_lt_Some.
      intros [= <-]. simpl. destruct (Hcap p x Hx) as [Hc _]. lia.
    + rewrite list_lookup_insert_ne by done. eauto.
Qed.

Lemma consistent_enqueued sub x notif s :
  consistent s → heap s !! sub = Some x → closed (ch x) = false →
  length (buf (ch x)) < cap (ch x) →
  consistent (enqueued sub x notif s).
Proof.
  intros Hs Hx Hopen Hroom. unfold enqueued. rewrite <- Hopen.
  apply consistent_requeue; [done..|]. rewrite length_app. simpl. lia.
Qed.

Lemma consistent_dequeued sub x n rest s :
  consistent s → heap s !! sub = Some x → closed (ch x) = false →
  buf (ch x) = n :: rest →
  consistent (dequeued sub x rest s).
Proof.
  intros Hs Hx Hopen Hbuf. unfold dequeued. rewrite <- Hopen.
  apply consistent_requeue; [done..|].
  destruct Hs as [_ Hcap]. destruct (Hcap _ _ Hx) as [-> Hlen].
  rewrite Hbuf in Hlen. simpl in Hlen. lia.
Qed.

(** The deferred function of the goroutine serving [sub] keeps the
    invariant: no other key can point to [sub]. *)
Lemma consistent_detached sub x q l s :
  consistent s → heap s !! sub = Some x → length q ≤ length (buf (ch x)) →
  consistent (detached (userId x) sub x q l s).
Proof.
  intros [Hmap Hcap] Hx Hq. split; simpl.
  - intros u p. destruct (decide (userId x = u)) as [<-|Hne].
    + by rewrite lookup_delete_eq.
    + rewrite lookup_delete_ne by done. intros Hu.
      destruct (Hmap u p Hu) as (y & Hy & Hid & Hopen).
      destruct (decide (sub = p)) as [->|Hp]; [congruence|].
      rewrite list_lookup_insert_ne by done. eauto.
  - intros p y. destruct (decide (sub = p)) as [->|Hne].
    + rewrite list_lookup_insert_eq by eauto using lookup_lt_Some.
      intros [= <-]. simpl. destruct (Hcap p x Hx). lia.
    + rewrite list_lookup_insert_ne by done. eauto.
Qed.

Lemma consistent_attach userID s sub s' :
  consistent s → attach userID s = Ok (sub, s') → consistent s'.
Proof.
  rewrite attach_eq. intros [Hmap Hcap] [= <- <-]. split; simpl.
  - intros u p. destruct (decide (userID = u)) as [<-|Hne].
    + rewrite lookup_insert_eq. intros [= <-].
      rewrite lookup_app_r, Nat.sub_diag by done. by eexists.
    + rewrite lookup_insert_ne by done. intros Hu.
      destruct (Hmap u p Hu) as (y & Hy & Hid & Hopen).
      exists y. by rewrite (lookup_app_l_Some _ _ _ _ Hy).
  - intros p y [Hy|[_ Hy]]%lookup_app_Some; [eauto|].
    destruct (p - length (heap s)) as [|k]; [|done].
    injection Hy as <-. simpl. lia.
Qed.

Lemma consistent_sessionStep sub x c s r s' :
  consistent s → heap s !! sub = Some x →
  sessionStep (userId x) sub c s = Ok (r, s') → consistent s'.
Proof.
  intros Hs Hx H. apply sessionStep_Ok in H as (y & Hy & Hopen & H).
  assert (y = x) as -> by congruence.
  destruct r as [n|err].
  - destruct H as (rest & _ & Hbuf & ->). by eapply consistent_dequeued.
  - destruct H as [[_ ->]|(n & rest & _ & Hbuf & ->)];
      apply consistent_detached; try done.
    rewrite Hbuf. simpl. lia.
Qed.

Lemma consistent_broadcastSelect elapsed pickTimer userID sub notif s o s' :
  consistent s →
  broadcastSelect elapsed pickTimer userID sub notif s = Ok (o, s') → consistent s'.
Proof.
  intros Hs H. apply broadcastSelect_Ok in H as (x & Hx & [[_ ->]|(_ & Hopen & Hroom & ->)]).
  - by apply consistent_logged.
  - by apply consistent_logged, consistent_enqueued.
Qed.

Lemma consistent_broadcast elapsed pickTimer userID notif s o s' :
  consistent s →
  broadcast elapsed pickTimer userID notif s = Ok (o, s') → consistent s'.
Proof.
  intros Hs. destruct (subscribers s !! userID) as [sub|] eqn:Hsub.
  - rewrite (broadcast_present _ _ _ _ _ _ Hsub). by apply consistent_broadcastSelect.
  - rewrite (broadcast_absent _ _ _ _ _ Hsub). intros [= _ <-]. by apply consistent_logged.
Qed.

(** ** The bus callbacks *)

Section callbacks.
Context (env : Env) (m : Msg) (s : notificationServer).

Lemma onUserCreated_error event e :
  json.Unmarshal UserCreatedEvent_fields (Data m) zeroUserCreatedEvent = (event, Some e) →
  onUserCreated env m s
  = Ok (None, logged (LogErrUnmarshalUserCreated e)
                (logged (LogReceivedUserCreated (Data m)) s)).
Proof.
  intros H. unfold onUserCreated. by rewrite H.
Qed.

Lemma onUserCreated_decoded event :
  json.Unmarshal UserCreatedEvent_fields (Data m) zeroUserCreatedEvent = (event, None) →
  let notif := {|
    notifpb.Id := uuid env;
    notifpb.UserId := UID event;
    notifpb.Message := "Welcome to the platform, " +:+ Username event +:+ "!";
    notifpb.Timestamp := now env
  |} in
  onUserCreated env m s
  = (o ← broadcast (elapsed env) (pickTimer env) (UID event) notif;
     mret (Some (notif, o))) (logged (LogReceivedUserCreated (Data m)) s).
Proof.
  intros H. unfold onUserCreated. by rewrite H.
Qed.

Lemma onBillUpdate_error event e :
  json.Unmarshal billUpdate_fields (Data m) zeroBillUpdate = (event, Some e) →
  onBillUpdate env m s
  = Ok (None, logged LogErrUnmarshalBillUpdate
                (logged (LogReceivedBillUpdate (Data m)) s)).
Proof.
  intros H. unfold onBillUpdate. by rewrite H.
Qed.

Lemma onBillUpdate_decoded event :
  json.Unmarshal billUpdate_fields (Data m) zeroBillUpdate = (event, None) →
  let notif := {|
    notifpb.Id := uuid env;
    notifpb.UserId := Id event;
    notifpb.Message := Message event;
    notifpb.Timestamp := now env
  |} in
  onBillUpdate env m s
  = (o ← broadcast (elapsed env) (pickTimer env) (Id event) notif;
     mret (Some (notif, o))) (logged (LogReceivedBillUpdate (Data m)) s).
Proof.
  intros H. unfold onBillUpdate. by rewrite H.
Qed.

Lemma onMsg_userCreated :
  Subject m = "user.created" → onMsg env m s = onUserCreated env m s.
Proof. intros H. unfold onMsg. by rewrite H. Qed.

Lemma onMsg_billUpdate :
  Subject m = "bill.update" → onMsg env m s = onBillUpdate env m s.
Proof. intros H. unfold onMsg. by rewrite H. Qed.

Lemma onMsg_other :
  Subject m ≠ "user.created" → Subject m ≠ "bill.update" →
  onMsg env m s = Ok (None, s).
Proof.
  intros H1 H2. unfold onMsg.
  by rewrite !bool_decide_eq_false_2.
Qed.

(** A message either leaves map and store as they are and builds no
    notification, or builds one and hands it to [broadcast] under the
    notification's own [UserId], after one log line. *)
Lemma onMsg_Ok r s' :
  onMsg env m s = Ok (r, s') →
  match r with
  | None => subscribers s' = subscribers s ∧ heap s' = heap s
  | Some (notif, o) =>
      notifpb.Id notif = uuid env ∧
      ∃ l, broadcast (elapsed env) (pickTimer env) (notifpb.UserId notif) notif (logged l s)
           = Ok (o, s')
  end.
Proof.
  unfold onMsg. repeat case_bool_decide.
  - destruct (json.Unmarshal UserCreatedEvent_fields (Data m) zeroUserCreatedEvent)
      as [event [e|]] eqn:Hd.
    + rewrite (onUserCreated_error _ _ Hd). by intros [= <- <-].
    + rewrite (onUserCreated_decoded _ Hd). intros Hok. bind_inv Hok as o s1 Hb.
      injection Hok as <- <-. split; [done|]. by eexists.
  - destruct (json.Unmarshal billUpdate_fields (Data m) zeroBillUpdate)
      as [event [e|]] eqn:Hd.
    + rewrite (onBillUpdate_error _ _ Hd). by intros [= <- <-].
    + rewrite (onBillUpdate_decoded _ Hd). intros Hok. bind_inv Hok as o s1 Hb.
      injection Hok as <- <-. split; [done|]. by eexists.
  - by intros [= <- <-].
Qed.

End callbacks.

Lemma consistent_onMsg env m s r s' :
  consistent s → onMsg env m s = Ok (r, s') → consistent s'.
Proof.
  intros Hs H. apply onMsg_Ok in H. destruct r as [[notif o]|].
  - destruct H as [_ [l H]]. eapply consistent_broadcast; [|done].
    by apply consistent_logged.
  - destruct H as [Hm Hh]. destruct Hs as [H1 H2].
    split; intros ??; rewrite ?Hm, ?Hh; eauto.
Qed.

(** ** Every reachable state is consistent *)

Lemma exec_Ok a s s' :
  exec a s = Ok ((), s') →
  match a with
  | Open userID => ∃ sub, attach userID s = Ok (sub, s')
  | Step sub c =>
      ∃ x r, heap s !! sub = Some x ∧ sessionStep (userId x) sub c s = Ok (r, s')
  | Publish env m => ∃ r, onMsg env m s = Ok (r, s')
  | Select elapsed pickTimer sub notif =>
      ∃ x o, heap s !! sub = Some x ∧ notifpb.UserId notif = userId x ∧
             broadcastSelect elapsed pickTimer (userId x) sub notif s = Ok (o, s')
  end.
Proof.
  intros H. destruct a as [userID|sub c|env m|e pk sub notif]; simpl in H.
  - bind_inv H as sub s1 H1. injection H as <-. by exists sub.
  - bind_inv H as x s1 H1. apply deref_Ok in H1 as [Hx ->].
    bind_inv H as r s2 H2. injection H as <-. by exists x, r.
  - bind_inv H as r s1 H1. injection H as <-. by exists r.
  - bind_inv H as x s1 H1. apply deref_Ok in H1 as [Hx ->].
    case_bool_decide as Hid; [|done].
    bind_inv H as o s2 H2. injection H as <-. by exists x, o.
Qed.

Lemma run_cons a acts s s' :
  run (a :: acts) s = Ok ((), s') ↔
  ∃ s1, exec a s = Ok ((), s1) ∧ run acts s1 = Ok ((), s').
Proof.
  simpl. rewrite bind_Ok. split.
  - intros ([] & s1 & ? & ?). by exists s1.
  - intros (s1 & ? & ?). by exists (), s1.
Qed.

Lemma consistent_exec a s s' :
  consistent s → exec a s = Ok ((), s') → consistent s'.
Proof.
  intros Hs H%exec_Ok. destruct a as [userID|sub c|env m|e pk sub notif].
  - destruct H as [sub H]. by eapply consistent_attach.
  - destruct H as (x & r & Hx & H). by eapply consistent_sessionStep.
  - destruct H as [r H]. by eapply consistent_onMsg.
  - destruct H as (x & o & Hx & _ & H). by eapply consistent_broadcastSelect.
Qed.

Lemma consistent_run acts s s' :
  consistent s → run acts s = Ok ((), s') → consistent s'.
Proof.
  revert s. induction acts as [|a acts IH]; intros s Hs H.
  - by injection H as <-.
  - apply run_cons in H as (s1 & Ha & H). eauto using consistent_exec.
Qed.

Lemma reachable_consistent s : reachable s → consistent s.
Proof. intros [acts H]. eapply consistent_run; [apply consistent_newServer|done]. Qed.

(** ** Where the records of a queue come from *)

Lemma queue_logged l s sub : queue (logged l s) sub = queue s sub.
Proof. done. Qed.

Lemma queue_insert sub x c s logs' subs' p :
  heap s !! sub = Some x →
  queue (mkServer subs' (<[sub := mkSubscriber c (userId x)]> (heap s)) logs') p
  = if decide (sub = p) then buf c else queue s p.
Proof.
  intros Hx. unfold queue. simpl. case_decide as Hp.
  - subst p. by rewrite list_lookup_insert_eq by eauto using lookup_lt_Some.
  - by rewrite list_lookup_insert_ne.
Qed.

Lemma queue_broadcastSelect elapsed pickTimer userID sub notif s o s' p n :
  broadcastSelect elapsed pickTimer userID sub notif s = Ok (o, s') →
  n ∈ queue s' p → n = notif ∨ n ∈ queue s p.
Proof.
  intros H. apply broadcastSelect_Ok in H as (x & Hx & [[_ ->]|(_ & _ & _ & ->)]).
  - rewrite queue_logged. by right.
  - rewrite queue_logged. unfold enqueued. rewrite (queue_insert _ _ _ _ _ _ _ Hx).
    case_decide as Hp; [|by right]. subst p. simpl.
    intros [Hn|Hn%list_elem_of_singleton]%elem_of_app; [right|by left].
    unfold queue. by rewrite Hx.
Qed.

Lemma queue_broadcast elapsed pickTimer userID notif s o s' p n :
  broadcast elapsed pickTimer userID notif s = Ok (o, s') →
  n ∈ queue s' p → n = notif ∨ n ∈ queue s p.
Proof.
  destruct (subscribers s !! userID) as [sub|] eqn:Hsub.
  - rewrite (broadcast_present _ _ _ _ _ _ Hsub). apply queue_broadcastSelect.
  - rewrite (broadcast_absent _ _ _ _ _ Hsub). intros [= _ <-]. by right.
Qed.

Lemma queue_sessionStep userID sub c s r s' p n :
  sessionStep userID sub c s = Ok (r, s') → n ∈ queue s' p → n ∈ queue s p.
Proof.
  intros H. apply sessionStep_Ok in H as (x & Hx & Hopen & H).
  assert (∀ q logs' subs' b,
    (∀ k, k ∈ q → k ∈ buf (ch x)) →
    n ∈ queue (mkServer subs'
      (<[sub := mkSubscriber (mkChan q (cap (ch x)) b) (userId x)]> (heap s)) logs') p →
    n ∈ queue s p) as Hsub.
  { intros q logs' subs' b Hq. rewrite (queue_insert _ _ _ _ _ _ _ Hx).
    case_decide as Hp; [|done]. subst p. simpl. unfold queue. rewrite Hx. auto. }
  destruct r as [n0|err].
  - destruct H as (rest & _ & Hbuf & ->). apply Hsub.
    intros k Hk. rewrite Hbuf. by right.
  - destruct H as [[_ ->]|(n0 & rest & _ & Hbuf & ->)]; apply Hsub; [done|].
    intros k Hk. rewrite Hbuf. by right.
Qed.

Lemma queue_attach userID s sub s' p n :
  attach userID s = Ok (sub, s') → n ∈ queue s' p → n ∈ queue s p.
Proof.
  rewrite attach_eq. intros [= <- <-]. unfold queue. simpl.
  destruct (decide (p < length (heap s))) as [Hp|Hp].
  - by rewrite lookup_app_l.
  - rewrite lookup_app_r by lia.
    destruct (p - length (heap s)) as [|k]; simpl; by intros ?%elem_of_nil.
Qed.

Lemma queue_exec notif a s s' p :
  foreign notif a → exec a s = Ok ((), s') →
  notif ∈ queue s' p → notif ∈ queue s p.
Proof.
  intros Hfor H%exec_Ok. destruct a as [userID|sub c|env m|e pk sub n]; simpl in Hfor.
  - destruct H as [sub H]. by eapply queue_attach.
  - destruct H as (x & r & Hx & H). by eapply queue_sessionStep.
  - destruct H as [[[n o]|] H]; apply onMsg_Ok in H.
    + destruct H as [Hid [l H]]. intros Hin.
      destruct (queue_broadcast _ _ _ _ _ _ _ _ _ H Hin) as [->|Hq]; [|done].
      by destruct Hfor.
    + destruct H as [_ Hh]. unfold queue. by rewrite Hh.
  - destruct H as (x & o & Hx & _ & H). intros Hin.
    destruct (queue_broadcastSelect _ _ _ _ _ _ _ _ _ _ H Hin) as [->|Hq]; [|done].
    by destruct Hfor.
Qed.

(** A record is on a queue after a run only if it was there before, or the
    run delivered it. *)
Lemma queue_run notif acts s s' p :
  Forall (foreign notif) acts → run acts s = Ok ((), s') →
  notif ∈ queue s' p → notif ∈ queue s p.
Proof.
  revert s. induction acts as [|a acts IH]; intros s Hfor H.
  - by injection H as <-.
  - apply Forall_cons in Hfor as [Ha Hfor]. apply run_cons in H as (s1 & H1 & H).
    intros Hin. eapply queue_exec; [done..|]. by eapply IH.
Qed.

(** ** Routing *)

Lemma routed_newServer : routed newServer.
Proof. by intros sub x n. Qed.

(** A change of the queue of [sub] to records that are for its user. *)
Lemma routed_requeue sub x q b subs' logs' s :
  routed s → heap s !! sub = Some x →
  (∀ n, n ∈ q → notifpb.UserId n = userId x) →
  routed (mkServer subs'
            (<[sub := mkSubscriber (mkChan q (cap (ch x)) b) (userId x)]> (heap s)) logs').
Proof.
  intros Hs Hx Hq p y n. simpl. destruct (decide (sub = p)) as [->|Hne].
  - rewrite list_lookup_insert_eq by eauto using lookup_lt_Some.
    intros [= <-]. simpl. auto.
  - rewrite list_lookup_insert_ne by done. apply Hs.
Qed.

Lemma routed_broadcastSelect elapsed pickTimer sub x notif s o s' :
  routed s → heap s !! sub = Some x → notifpb.UserId notif = userId x →
  broadcastSelect elapsed pickTimer (userId x) sub notif s = Ok (o, s') → routed s'.
Proof.
  intros Hs Hx Hid H.
  apply broadcastSelect_Ok in H as (y & Hy & [[_ ->]|(_ & _ & _ & ->)]); [done|].
  assert (y = x) as -> by congruence.
  apply routed_requeue; [done..|].
  intros n [Hn|Hn%list_elem_of_singleton]%elem_of_app; [by eapply Hs|by subst n].
Qed.

Lemma routed_broadcast elapsed pickTimer notif s o s' :
  consistent s → routed s →
  broadcast elapsed pickTimer (notifpb.UserId notif) notif s = Ok (o, s') → routed s'.
Proof.
  intros [Hmap _] Hs. destruct (subscribers s !! notifpb.UserId notif) as [sub|] eqn:Hsub.
  - rewrite (broadcast_present _ _ _ _ _ _ Hsub).
    destruct (Hmap _ _ Hsub) as (x & Hx & Hid & _). rewrite <- Hid at 1.
    by eapply routed_broadcastSelect.
  - rewrite (broadcast_absent _ _ _ _ _ Hsub). by intros [= _ <-].
Qed.

Lemma routed_sessionStep userID sub c s r s' :
  routed s → sessionStep userID sub c s = Ok (r, s') → routed s'.
Proof.
  intros Hs H. apply sessionStep_Ok in H as (x & Hx & Hopen & H).
  destruct r as [n|err].
  - destruct H as (rest & _ & Hbuf & ->). apply routed_requeue; [done..|].
    intros k Hk. apply (Hs _ _ _ Hx). rewrite Hbuf. by right.
  - destruct H as [[_ ->]|(n & rest & _ & Hbuf & ->)]; apply routed_requeue; try done.
    + intros k Hk. by apply (Hs _ _ _ Hx).
    + intros k Hk. apply (Hs _ _ _ Hx). rewrite Hbuf. by right.
Qed.

Lemma routed_attach userID s sub s' :
  routed s → attach userID s = Ok (sub, s') → routed s'.
Proof.
  rewrite attach_eq. intros Hs [= <- <-] p y n. simpl.
  intros [Hy|[_ Hy]]%lookup_app_Some Hn; [by eapply Hs|].
  destruct (p - length (heap s)) as [|k]; [|done].
  injection Hy as <-. by apply elem_of_nil in Hn.
Qed.

Lemma routed_exec a s s' :
  consistent s → routed s → exec a s = Ok ((), s') → routed s'.
Proof.
  intros Hc Hs H%exec_Ok. destruct a as [userID|sub c|env m|e pk sub notif].
  - destruct H as [sub H]. by eapply routed_attach.
  - destruct H as (x & r & Hx & H). by eapply routed_sessionStep.
  - destruct H as [[[n o]|] H]; apply onMsg_Ok in H.
    + destruct H as [_ [l H]]. by eapply routed_broadcast; [..|exact H].
    + destruct H as [_ Hh]. intros p y k. rewrite Hh. apply Hs.
  - destruct H as (x & o & Hx & Hid & H). by eapply routed_broadcastSelect.
Qed.

Lemma routed_run acts s s' :
  consistent s → routed s → run acts s = Ok ((), s') → routed s'.
Proof.
  revert s. induction acts as [|a acts IH]; intros s Hc Hs H.
  - by injection H as <-.
  - apply run_cons in H as (s1 & Ha & H).
    eauto using consistent_exec, routed_exec.
Qed.

Lemma reachable_routed s : reachable s → routed s.
Proof.
  intros [acts H].
  eapply routed_run; [apply consistent_newServer|apply routed_newServer|done].
Qed.

(** ** broadcast returns *)

(** Once the second has passed, the [select] is resolved one way or the
    other: in a consistent state a call of [broadcast] has returned by
    then. *)
Lemma broadcast_returns elapsed pickTimer userID notif s :
  consistent s → (1 * time.Second ≤ elapsed)%Z →
  ∃ o s', broadcast elapsed pickTimer userID notif s = Ok (o, s').
Proof.
  intros [Hmap _] Hlate. destruct (subscribers s !! userID) as [sub|] eqn:Hsub.
  - rewrite (broadcast_present _ _ _ _ _ _ Hsub).
    destruct (Hmap _ _ Hsub) as (x & Hx & _ & Hopen).
    destruct (decide (length (buf (ch x)) < cap (ch x))) as [Hroom|Hfull].
    + destruct pickTimer.
      * unfold broadcastSelect. rewrite (bind_eq _ _ _ _ _ (deref_eq _ _ _ Hx)).
        unfold time.After. destruct (Z.leb_spec (1 * time.Second) elapsed); [|lia].
        by eexists _, _.
      * eexists _, _. eapply broadcastSelect_send; [done..|]. apply andb_false_r.
    + eexists _, _. eapply broadcastSelect_timer; [done..|lia|done].
  - rewrite (broadcast_absent _ _ _ _ _ Hsub). by eexists _, _.
Qed.

(** ** Frames, example states and payloads *)

Lemma reachable_after acts s : run acts newServer = Ok ((), s) → reachable (after acts).
Proof. intros H. exists acts. unfold after. by rewrite H. Qed.

(** What a [select] of [broadcast] that is resolved has done: nothing to the
    map, nothing outside [sub], and in [sub] nothing but the queue. *)
Lemma broadcastSelect_frame elapsed pickTimer userID sub notif s o s' :
  broadcastSelect elapsed pickTimer userID sub notif s = Ok (o, s') →
  subscribers s' = subscribers s ∧
  (∀ p, p ≠ sub → heap s' !! p = heap s !! p) ∧
  (∀ p x, heap s !! p = Some x →
     ∃ q, heap s' !! p
          = Some (mkSubscriber (mkChan q (cap (ch x)) (closed (ch x))) (userId x))).
Proof.
  assert (∀ p x, heap s !! p = Some x →
    ∃ q, heap s !! p
         = Some (mkSubscriber (mkChan q (cap (ch x)) (closed (ch x))) (userId x))) as Hsame.
  { intros p [[q c b] u] Hp. by exists q. }
  intros H. apply broadcastSelect_Ok in H as (x & Hx & [[_ ->]|(_ & Hopen & _ & ->)]).
  - by split_and!.
  - split_and!; simpl; [done|..].
    + intros p Hp. by apply list_lookup_insert_ne.
    + intros p y Hy. destruct (decide (sub = p)) as [->|Hne].
      * rewrite list_lookup_insert_eq by eauto using lookup_lt_Some.
        assert (y = x) as -> by congruence. rewrite Hopen. by eexists.
      * rewrite list_lookup_insert_ne by done. auto.
Qed.

Lemma userCreatedPayload_decodes uid username :
  json.Unmarshal UserCreatedEvent_fields (userCreatedPayload uid username)
    zeroUserCreatedEvent
  = ({| UID := uid; Username := username |}, None).
Proof. done. Qed.

Lemma billUpdatePayload_decodes id message :
  json.Unmarshal billUpdate_fields (billUpdatePayload id message) zeroBillUpdate
  = ({| Id := id; Message := message |}, None).
Proof. done. Qed.

(** ** Subscribers whose channel is closed *)

(** No step changes a subscriber whose channel is closed. *)
Lemma frozen_broadcastSelect elapsed pickTimer userID sub notif s o s' p x :
  heap s !! p = Some x → closed (ch x) = true →
  broadcastSelect elapsed pickTimer userID sub notif s = Ok (o, s') →
  heap s' !! p = Some x.
Proof.
  intros Hp Hclosed H.
  apply broadcastSelect_Ok in H as (y & Hy & [[_ ->]|(_ & Hopen & _ & ->)]); [done|].
  simpl. rewrite list_lookup_insert_ne; [done|]. congruence.
Qed.

Lemma frozen_broadcast elapsed pickTimer userID notif s o s' p x :
  heap s !! p = Some x → closed (ch x) = true →
  broadcast elapsed pickTimer userID notif s = Ok (o, s') →
  heap s' !! p = Some x.
Proof.
  intros Hp Hclosed. destruct (subscribers s !! userID) as [sub|] eqn:Hsub.
  - rewrite (broadcast_present _ _ _ _ _ _ Hsub). by apply frozen_broadcastSelect.
  - rewrite (broadcast_absent _ _ _ _ _ Hsub). by intros [= _ <-].
Qed.

Lemma frozen_sessionStep userID sub c s r s' p x :
  heap s !! p = Some x → closed (ch x) = true →
  sessionStep userID sub c s = Ok (r, s') →
  heap s' !! p = Some x.
Proof.
  intros Hp Hclosed H. apply sessionStep_Ok in H as (y & Hy & Hopen & H).
  assert (sub ≠ p) as Hne by congruence.
  destruct r as [n|err].
  - destruct H as (rest & _ & _ & ->). simpl. by rewrite list_lookup_insert_ne.
  - destruct H as [[_ ->]|(n & rest & _ & _ & ->)]; simpl;
      by rewrite list_lookup_insert_ne.
Qed.

Lemma frozen_exec a s s' p x :
  heap s !! p = Some x → closed (ch x) = true →
  exec a s = Ok ((), s') → heap s' !! p = Some x.
Proof.
  intros Hp Hclosed H%exec_Ok. destruct a as [userID|sub c|env m|e pk sub notif].
  - destruct H as [sub H]. rewrite attach_eq in H. injection H as _ <-. simpl.
    by apply lookup_app_l_Some.
  - destruct H as (y & r & Hy & H). by eapply frozen_sessionStep.
  - destruct H as [[[n o]|] H]; apply onMsg_Ok in H.
    + destruct H as [_ [l H]]. by eapply frozen_broadcast; [..|exact H].
    + destruct H as [_ Hh]. by rewrite Hh.
  - destruct H as (y & o & Hy & _ & H). by eapply frozen_broadcastSelect.
Qed.

Lemma frozen_run acts s s' p x :
  heap s !! p = Some x → closed (ch x) = true →
  run acts s = Ok ((), s') → heap s' !! p = Some x.
Proof.
  revert s. induction acts as [|a acts IH]; intros s Hp Hclosed H.
  - by injection H as <-.
  - apply run_cons in H as (s1 & Ha & H). eauto using frozen_exec.
Qed.

(** ** Leaving the send loop *)

(** What holds of C7 and of C2. Whichever case makes the goroutine serving
    [sub] return, the deferred function has run once when the step is over:
    the key of the goroutine is gone from the map, its channel is closed,
    and the log has gained the line of the case followed by one line of the
    deferred function. The goroutine takes no further step; and whatever
    runs afterwards, no key of the map points to [sub] again, so that no
    call of [broadcast] that starts afterwards finds it. *)
Lemma session_exit_cleanup sub x c err s s' :
  consistent s → heap s !! sub = Some x →
  sessionStep (userId x) sub c s = Ok (Return err, s') →
  subscribers s' !! userId x = None ∧
  (∃ q, heap s' !! sub = Some (mkSubscriber (mkChan q (cap (ch x)) true) (userId x))) ∧
  (∃ l, logs s' = logs s ++ [l; LogSubscriberDisconnected (userId x)] ∧
        (l = LogClientDisconnected (userId x) ∨ l = LogErrorSending (userId x) err)) ∧
  (∀ c', sessionStep (userId x) sub c' s' = Blocked) ∧
  (∀ acts s'', run acts s' = Ok ((), s'') →
     (∀ u, subscribers s'' !! u ≠ Some sub) ∧ heap s'' !! sub = heap s' !! sub).
Proof.
  intros Hs Hx H.
  pose proof (consistent_sessionStep _ _ _ _ _ _ Hs Hx H) as Hs'.
  apply sessionStep_Ok in H as (y & Hy & Hopen & H).
  assert (y = x) as -> by congruence.
  assert (∃ q l, s' = detached (userId x) sub x q l s ∧
                 (l = LogClientDisconnected (userId x) ∨
                  l = LogErrorSending (userId x) err)) as (q & l & -> & Hl).
  { destruct H as [[_ ->]|(n & rest & _ & _ & ->)]; eexists _, _; eauto. }
  assert (heap (detached (userId x) sub x q l s) !! sub
          = Some (mkSubscriber (mkChan q (cap (ch x)) true) (userId x))) as Hsub.
  { simpl. apply list_lookup_insert_eq. eauto using lookup_lt_Some. }
  split_and!.
  - apply lookup_delete_eq.
  - by exists q.
  - by exists l.
  - intros c'. by eapply sessionStep_gone.
  - intros acts s'' Hrun.
    pose proof (frozen_run _ _ _ _ _ Hsub eq_refl Hrun) as Hfrozen.
    split; [|by rewrite Hfrozen, Hsub].
    intros u Hu. destruct (consistent_run _ _ _ Hs' Hrun) as [Hmap _].
    destruct (Hmap _ _ Hu) as (z & Hz & _ & Hzopen).
    rewrite Hfrozen in Hz. by injection Hz as <-.
Qed.

(** ** Two defects, from any state *)

(** The deferred function deletes by key: when the map holds another
    subscriber under the key of the goroutine that returns, it is that
    registration which goes, and the other subscriber stays as it is, open
    and served. *)
Lemma exit_deletes_by_key sub sub2 x c err s s' :
  heap s !! sub = Some x → subscribers s !! userId x = Some sub2 → sub2 ≠ sub →
  sessionStep (userId x) sub c s = Ok (Return err, s') →
  subscribers s' !! userId x = None ∧ heap s' !! sub2 = heap s !! sub2.
Proof.
  intros Hx Hsub2 Hne H. apply sessionStep_Ok in H as (y & Hy & _ & H).
  destruct H as [[_ ->]|(n & rest & _ & _ & ->)]; simpl;
    by rewrite lookup_delete_eq, list_lookup_insert_ne.
Qed.

(** A [broadcast] that holds [sub] from a lookup made before the goroutine
    serving [sub] returned finds the channel closed in its [select], and the
    send panics. *)
Lemma send_after_exit_panics elapsed pickTimer sub x c err notif s s' :
  heap s !! sub = Some x →
  sessionStep (userId x) sub c s = Ok (Return err, s') →
  time.After (1 * time.Second) elapsed && pickTimer = false →
  broadcastSelect elapsed pickTimer (userId x) sub notif s'
  = Panic "send on closed channel".
Proof.
  intros Hx H Hpick. apply sessionStep_Ok in H as (y & Hy & _ & H).
  assert (y = x) as -> by congruence.
  assert (∃ q l, s' = detached (userId x) sub x q l s) as (q & l & ->).
  { destruct H as [[_ ->]|(n & rest & _ & _ & ->)]; by eexists _, _. }
  apply (broadcastSelect_closed _ _ _ _ _ _
           (mkSubscriber (mkChan q (cap (ch x)) true) (userId x))); [|done..].
  simpl. apply list_lookup_insert_eq. eauto using lookup_lt_Some.
Qed.

(** * The claims *)

(** C1. A call of [broadcast] goes one of three ways. With no subscriber
    under [userID] it returns as NoSubscriber and does nothing but log the
    line. With a subscriber whose queue has room it appends the
    notification to that queue and returns as Delivered (the timer case is
    not both ready and picked). With a subscriber whose queue is full it
    waits as long as the second has not passed, and once it has passed
    with the queue still full it returns as Dropped, the state being as
    before but for the log line: the notification is on no queue
    afterwards unless it was there before, whatever runs later, as long as
    it is not delivered again. *)
Theorem broadcast_three_ways elapsed pickTimer userID notif s :
  consistent s →
  (subscribers s !! userID = None →
   broadcast elapsed pickTimer userID notif s
   = Ok (NoSubscriber, logged (LogNoActiveSubscribers userID) s)) ∧
  (∀ sub, subscribers s !! userID = Some sub →
   ∃ x, heap s !! sub = Some x ∧
     (length (buf (ch x)) < cap (ch x) →
      time.After (1 * time.Second) elapsed && pickTimer = false →
      broadcast elapsed pickTimer userID notif s
      = Ok (Delivered, logged (LogBroadcasted userID) (enqueued sub x notif s))) ∧
     (cap (ch x) ≤ length (buf (ch x)) →
      ((elapsed < 1 * time.Second)%Z →
       broadcast elapsed pickTimer userID notif s = Blocked) ∧
      ((1 * time.Second ≤ elapsed)%Z →
       broadcast elapsed pickTimer userID notif s
       = Ok (Dropped, logged (LogChannelFull userID) s) ∧
       ∀ acts s' p,
         Forall (foreign notif) acts →
         run acts (logged (LogChannelFull userID) s) = Ok ((), s') →
         notif ∈ queue s' p → notif ∈ queue s p))).
Proof.
  intros Hs. split.
  - apply broadcast_absent.
  - intros sub Hsub. destruct Hs as [Hmap _].
    destruct (Hmap _ _ Hsub) as (x & Hx & _ & Hopen).
    exists x. split; [done|]. rewrite (broadcast_present _ _ _ _ _ _ Hsub).
    split; [by apply broadcastSelect_send|].
    intros Hfull. split; [by apply (broadcastSelect_waits _ _ _ _ _ _ x)|].
    intros Hlate. split; [by apply (broadcastSelect_timer _ _ _ _ _ _ x)|].
    intros acts s' p Hfor Hrun Hin.
    by apply (queue_run _ _ _ _ _ Hfor Hrun) in Hin.
Qed.

Lemma broadcast_three_ways_witness :
  broadcast 0 false "u2" welcomeAna (after [Open "u1"])
  = Ok (NoSubscriber, logged (LogNoActiveSubscribers "u2") (after [Open "u1"])) ∧
  broadcast 0 false "u1" welcomeAna (after [Open "u1"])
  = Ok (Delivered,
        logged (LogBroadcasted "u1")
          (enqueued 0 (mkSubscriber (make 10) "u1") welcomeAna (after [Open "u1"]))) ∧
  broadcast 999999999 false "u1" welcomeAna (after saturated) = Blocked ∧
  broadcast 1000000000 false "u1" welcomeAna (after saturated)
  = Ok (Dropped, logged (LogChannelFull "u1") (after saturated)).
Proof.
  assert (consistent (after [Open "u1"])) as H1.
  { apply reachable_consistent. eapply reachable_after. vm_compute. reflexivity. }
  assert (consistent (after saturated)) as H2.
  { apply reachable_consistent. eapply reachable_after. vm_compute. reflexivity. }
  split_and!.
  - apply (broadcast_three_ways 0 false "u2" welcomeAna _ H1). reflexivity.
  - destruct (broadcast_three_ways 0 false "u1" welcomeAna _ H1) as [_ Hb].
    destruct (Hb 0) as (x & Hx & Hsend & _); [reflexivity|].
    vm_compute in Hx. injection Hx as <-. apply Hsend; [simpl; lia|reflexivity].
  - destruct (broadcast_three_ways 999999999 false "u1" welcomeAna _ H2) as [_ Hb].
    destruct (Hb 0) as (x & Hx & _ & Hfull); [reflexivity|].
    vm_compute in Hx. injection Hx as <-.
    apply Hfull; [simpl; lia|]. vm_compute. reflexivity.
  - destruct (broadcast_three_ways 1000000000 false "u1" welcomeAna _ H2) as [_ Hb].
    destruct (Hb 0) as (x & Hx & _ & Hfull); [reflexivity|].
    vm_compute in Hx. injection Hx as <-.
    apply Hfull; [simpl; lia|]. vm_compute. discriminate.
Defined.

(** C2, where the code fails it. Two streams are opened for "u4", the
    second before the first is gone, so that the map points to the second
    subscriber. The first stream is then cancelled: its deferred function
    deletes the key "u4", which is the registration of the second stream.
    The second stream is still open, in its loop, but [broadcast] no longer
    finds it. *)
Theorem late_detach_removes_newer_registration :
  subscribers (after [Open "u4"; Open "u4"]) !! "u4" = Some 1 ∧
  run [Open "u4"; Open "u4"; Step 0 (CaseDone "context canceled")] newServer
  = Ok ((), mkServer ∅
              [mkSubscriber (mkChan [] 10 true) "u4"; mkSubscriber (make 10) "u4"]
              [LogNewSubscriber "u4"; LogNewSubscriber "u4";
               LogClientDisconnected "u4"; LogSubscriberDisconnected "u4"]) ∧
  result (broadcast 0 false "u4" (notifpb.mkNotification "5d41" "u4" "hello" "t")
            (after [Open "u4"; Open "u4"; Step 0 (CaseDone "context canceled")]))
  = Some NoSubscriber.
Proof. split_and!; by vm_compute. Qed.

(** C3, as the code has it. [handleWebSocket] answers an empty userId with
    400 and leaves the notification service alone, whether or not the
    upgrade would succeed; [SubscribeToNotifications] itself takes any
    [userID], the empty one as well, and registers a new subscriber under
    it. *)
Theorem empty_userId_rejected_by_gateway :
  (∀ upgradeOk s,
     handleWebSocket "" upgradeOk s
     = Ok (BadRequest "userId query parameter is required", s)) ∧
  (∀ userID s,
     ∃ s', SubscribeToNotifications userID [] s = Ok ((length (heap s), None), s') ∧
           subscribers s' !! userID = Some (length (heap s)) ∧
           heap s' !! length (heap s) = Some (mkSubscriber (make 10) userID)).
Proof.
  split; [done|]. intros userID s. eexists. split; [reflexivity|]. simpl. split.
  - apply lookup_insert_eq.
  - by rewrite lookup_app_r, Nat.sub_diag.
Qed.

(** [SubscribeToNotifications] with the empty [userID] does not fail: it is
    in its loop, with a subscriber registered under "". *)
Lemma empty_userID_registered_counterexample :
  SubscribeToNotifications "" [] newServer
  = Ok ((0, None),
        mkServer {[ "" := 0 ]} [mkSubscriber (make 10) ""] [LogNewSubscriber ""]).
Proof. by vm_compute. Qed.

(** C4, as the code has it. A message on "user.created" whose payload decodes
    to an event with fields uid and username makes the callback build one
    notification, with the uid as [UserId] and the message
    "Welcome to the platform, <username>!", and hand it to [broadcast] once
    under that uid; in a consistent state the callback has returned with
    that notification once the second has passed. *)
Theorem user_created_builds_welcome env m event s :
  Subject m = "user.created" →
  json.Unmarshal UserCreatedEvent_fields (Data m) zeroUserCreatedEvent = (event, None) →
  let notif := {|
    notifpb.Id := uuid env;
    notifpb.UserId := UID event;
    notifpb.Message := "Welcome to the platform, " +:+ Username event +:+ "!";
    notifpb.Timestamp := now env
  |} in
  onMsg env m s
  = (o ← broadcast (elapsed env) (pickTimer env) (UID event) notif;
     mret (Some (notif, o))) (logged (LogReceivedUserCreated (Data m)) s) ∧
  (consistent s → (1 * time.Second ≤ elapsed env)%Z →
   ∃ o s', onMsg env m s = Ok (Some (notif, o), s')).
Proof.
  intros Hsubj Hd notif.
  assert (onMsg env m s
    = (o ← broadcast (elapsed env) (pickTimer env) (UID event) notif;
       mret (Some (notif, o))) (logged (LogReceivedUserCreated (Data m)) s)) as Heq.
  { rewrite onMsg_userCreated by done. by apply onUserCreated_decoded. }
  split; [done|]. intros Hs Hlate. rewrite Heq.
  destruct (broadcast_returns (elapsed env) (pickTimer env) (UID event) notif
              (logged (LogReceivedUserCreated (Data m)) s)) as (o & s' & Hb);
    [by apply consistent_logged|done|].
  exists o, s'. by rewrite (bind_eq _ _ _ _ _ Hb).
Qed.

(** The stream open for "u1" gets the welcome for Ana. *)
Lemma user_created_builds_welcome_witness :
  onMsg env0 {| Subject := "user.created"; Data := userCreatedPayload "u1" "Ana" |}
    (after [Open "u1"])
  = Ok (Some (notifpb.mkNotification (uuid env0) "u1" "Welcome to the platform, Ana!" (now env0),
              Delivered),
        after [Open "u1";
               Publish env0 {| Subject := "user.created";
                               Data := userCreatedPayload "u1" "Ana" |}]).
Proof.
  destruct (user_created_builds_welcome env0
              {| Subject := "user.created"; Data := userCreatedPayload "u1" "Ana" |}
              {| UID := "u1"; Username := "Ana" |} (after [Open "u1"]))
    as [Heq _]; [reflexivity|reflexivity|].
  rewrite Heq. vm_compute. reflexivity.
Defined.

(** On the subject and with the field names and the text of the claim: no
    callback runs for "account.created"; on "user.created" the keys id and
    displayName select no field, so that the notification is for the user ""
    and greets nobody; and with the keys of the code the text is not the one
    claimed. *)
Lemma account_created_welcome_counterexample :
  onMsg env0
    {| Subject := "account.created";
       Data := Some (json.Object [("id", json.Str "u1"); ("displayName", json.Str "Ana")]) |}
    (after [Open "u1"])
  = Ok (None, after [Open "u1"]) ∧
  result (onMsg env0
    {| Subject := "user.created";
       Data := Some (json.Object [("id", json.Str "u1"); ("displayName", json.Str "Ana")]) |}
    (after [Open "u1"]))
  = Some (Some (notifpb.mkNotification (uuid env0) "" "Welcome to the platform, !" (now env0),
                NoSubscriber)) ∧
  result (onMsg env0
    {| Subject := "user.created"; Data := userCreatedPayload "u1" "Ana" |}
    (after [Open "u1"]))
  ≠ Some (Some (notifpb.mkNotification (uuid env0) "u1" "Welcome, Ana!" (now env0), Delivered)).
Proof. split_and!; [by vm_compute..|]. vm_compute. discriminate. Qed.

(** C5, as the code has it. The notification a callback hands to
    [broadcast] has as [UserId] the uid, on "user.created", or the Id, on
    "bill.update", its payload decoded to, whatever that string is; and a
    callback that returns without having built a notification met a
    payload on which [json.Unmarshal] failed, unless the subject has no
    callback at all. *)
Theorem recipient_is_decoded_id env m s r s' :
  onMsg env m s = Ok (r, s') →
  match r with
  | Some (notif, _) =>
      (Subject m = "user.created" ∧
       ∃ event,
         json.Unmarshal UserCreatedEvent_fields (Data m) zeroUserCreatedEvent
         = (event, None) ∧ notifpb.UserId notif = UID event) ∨
      (Subject m = "bill.update" ∧
       ∃ event,
         json.Unmarshal billUpdate_fields (Data m) zeroBillUpdate = (event, None) ∧
         notifpb.UserId notif = Id event)
  | None =>
      is_Some (decodeError m) ∨
      (Subject m ≠ "user.created" ∧ Subject m ≠ "bill.update")
  end.
Proof.
  unfold onMsg, decodeError. repeat case_bool_decide.
  - destruct (json.Unmarshal UserCreatedEvent_fields (Data m) zeroUserCreatedEvent)
      as [event [e|]] eqn:Hd.
    + rewrite (onUserCreated_error _ _ _ _ _ Hd). intros [= <- <-]. left. by eexists.
    + rewrite (onUserCreated_decoded _ _ _ _ Hd). intros Hok. bind_inv Hok as o s1 Hb.
      injection Hok as <- <-. left. split; [done|]. by exists event.
  - destruct (json.Unmarshal billUpdate_fields (Data m) zeroBillUpdate)
      as [event [e|]] eqn:Hd.
    + rewrite (onBillUpdate_error _ _ _ _ _ Hd). intros [= <- <-]. left. by eexists.
    + rewrite (onBillUpdate_decoded _ _ _ _ Hd). intros Hok. bind_inv Hok as o s1 Hb.
      injection Hok as <- <-. right. split; [done|]. by exists event.
  - intros [= <- <-]. by right.
Qed.

Lemma recipient_is_decoded_id_witness :
  ∃ event,
    json.Unmarshal billUpdate_fields (Data (billFor "u1")) zeroBillUpdate = (event, None) ∧
    "u1" = Id event.
Proof.
  destruct (recipient_is_decoded_id env0 (billFor "u1") (after [Open "u1"])
              (Some (notifpb.mkNotification (uuid env0) "u1"
                       "Your bill was updated to 42.00" (now env0), Delivered))
              (after [Open "u1"; Publish env0 (billFor "u1")]))
    as [[Hsubject _]|[_ Hevent]].
  - vm_compute. reflexivity.
  - discriminate Hsubject.
  - exact Hevent.
Defined.

(** The payload [{}] on "user.created" and a bill without user both decode,
    and the notification built for the user "" is handed to [broadcast],
    which even delivers it to a stream opened under "". *)
Lemma empty_recipient_counterexample :
  result (onMsg env0 {| Subject := "user.created"; Data := Some (json.Object []) |}
            (after [Open "u1"]))
  = Some (Some (notifpb.mkNotification (uuid env0) "" "Welcome to the platform, !" (now env0),
                NoSubscriber)) ∧
  result (onMsg env0 (billFor "") (after [Open ""]))
  = Some (Some (notifpb.mkNotification (uuid env0) "" "Your bill was updated to 42.00" (now env0),
                Delivered)).
Proof. split; by vm_compute. Qed.

(** C6. In every state the service can reach, a call of [broadcast] for a
    notification leaves alone the subscriber registered under any other
    user, and every subscriber but the one found under the notification's
    own [UserId]; the queue of the subscriber registered under a user holds
    only notifications for that user, and so does what its goroutine takes
    from the queue to send on its stream. *)
Theorem no_cross_recipient_delivery s :
  reachable s →
  (∀ elapsed pickTimer notif o s' R2 sub2,
     R2 ≠ notifpb.UserId notif → subscribers s !! R2 = Some sub2 →
     broadcast elapsed pickTimer (notifpb.UserId notif) notif s = Ok (o, s') →
     heap s' !! sub2 = heap s !! sub2 ∧ subscribers s' !! R2 = Some sub2) ∧
  (∀ elapsed pickTimer notif o s' p,
     subscribers s !! notifpb.UserId notif ≠ Some p →
     broadcast elapsed pickTimer (notifpb.UserId notif) notif s = Ok (o, s') →
     heap s' !! p = heap s !! p) ∧
  (∀ R2 sub2 notif,
     subscribers s !! R2 = Some sub2 → notif ∈ queue s sub2 → notifpb.UserId notif = R2) ∧
  (∀ sub x c notif s',
     heap s !! sub = Some x →
     sessionStep (userId x) sub c s = Ok (Sent notif, s') → notifpb.UserId notif = userId x).
Proof.
  intros Hreach.
  pose proof (reachable_consistent _ Hreach) as [Hmap _].
  pose proof (reachable_routed _ Hreach) as Hrouted.
  assert (∀ e pk notif o s' p,
    subscribers s !! notifpb.UserId notif ≠ Some p →
    broadcast e pk (notifpb.UserId notif) notif s = Ok (o, s') →
    subscribers s' = subscribers s ∧ heap s' !! p = heap s !! p) as Hframe.
  { intros e pk notif o s' p Hp.
    destruct (subscribers s !! notifpb.UserId notif) as [sub|] eqn:Hsub.
    - rewrite (broadcast_present _ _ _ _ _ _ Hsub). intros H.
      apply broadcastSelect_frame in H as (Hsubs & Hother & _).
      split; [done|]. apply Hother. congruence.
    - rewrite (broadcast_absent _ _ _ _ _ Hsub). by intros [= _ <-]. }
  split_and!.
  - intros e pk notif o s' R2 sub2 Hne Hsub2 H.
    destruct (Hframe e pk notif o s' sub2) as [Hsubs Hheap]; [|done|].
    + intros Hsub.
      destruct (Hmap _ _ Hsub2) as (x & Hx & Hid & _).
      destruct (Hmap _ _ Hsub) as (y & Hy & Hid' & _). congruence.
    + by rewrite Hsubs.
  - intros e pk notif o s' p Hp H. by destruct (Hframe e pk notif o s' p).
  - intros R2 sub2 notif Hsub2. destruct (Hmap _ _ Hsub2) as (x & Hx & <- & _).
    unfold queue. rewrite Hx. apply (Hrouted _ _ _ Hx).
  - intros sub x c notif s' Hx H.
    apply sessionStep_Ok in H as (y & Hy & _ & rest & _ & Hbuf & _).
    assert (y = x) as -> by congruence.
    apply (Hrouted _ _ _ Hx). rewrite Hbuf. by left.
Qed.

Lemma no_cross_recipient_delivery_witness :
  Forall (λ notif, notifpb.UserId notif = "u2") (queue (after twoStreams) 1).
Proof.
  assert (reachable (after twoStreams)) as Hreach.
  { eapply reachable_after. vm_compute. reflexivity. }
  destruct (no_cross_recipient_delivery _ Hreach) as (_ & _ & Hqueue & _).
  apply Forall_forall. intros notif. apply Hqueue. vm_compute. reflexivity.
Defined.

(** C7, where the code fails it. A stream is open for "u1". A call of
    [broadcast] for "u1" looks the subscriber up and releases the lock; the
    stream is cancelled and its deferred function closes the channel; the
    call then reaches its [select] and sends on the closed channel, which
    panics. The same schedule, as a run, ends in that panic. *)
Theorem send_after_detach_panics :
  mapLookup "u1" (after [Open "u1"]) = Ok (Some 0, after [Open "u1"]) ∧
  sessionStep "u1" 0 (CaseDone "context canceled") (after [Open "u1"])
  = Ok (Return "context canceled",
        after [Open "u1"; Step 0 (CaseDone "context canceled")]) ∧
  broadcastSelect 0 false "u1" 0 welcomeAna
    (after [Open "u1"; Step 0 (CaseDone "context canceled")])
  = Panic "send on closed channel" ∧
  run [Open "u1"; Step 0 (CaseDone "context canceled"); Select 0 false 0 welcomeAna]
    newServer
  = Panic "send on closed channel".
Proof. split_and!; by vm_compute. Qed.

(** C8. When [json.Unmarshal] fails on the payload of a message, the callback
    logs the failure and returns: no notification is built, [broadcast] is
    not called, map and store are as before, and the messages that follow
    are handled as if this one had not come, apart from the two log
    lines. *)
Theorem decode_failure_is_dropped env m e s :
  decodeError m = Some e →
  let s1 := logged (errorLine m e) (logged (receivedLine m) s) in
  onMsg env m s = Ok (None, s1) ∧
  subscribers s1 = subscribers s ∧ heap s1 = heap s ∧
  logs s1 = logs s ++ [receivedLine m; errorLine m e] ∧
  ∀ rest,
    subscribeToEvents ((env, m) :: rest) s
    = (rs ← subscribeToEvents rest; mret (None :: rs)) s1.
Proof.
  intros He s1.
  assert (onMsg env m s = Ok (None, s1)) as Hon.
  { subst s1. unfold decodeError, receivedLine, errorLine in *.
    repeat case_bool_decide; [| |done].
    - rewrite onMsg_userCreated by done.
      destruct (json.Unmarshal _ _ _) as [event err] eqn:Hd. simpl in He. subst err.
      by apply onUserCreated_error with event.
    - rewrite onMsg_billUpdate by done.
      destruct (json.Unmarshal _ _ _) as [event err] eqn:Hd. simpl in He. subst err.
      by apply onBillUpdate_error with event e. }
  split_and!; [done|done|done|simpl; by rewrite <- app_assoc|].
  intros rest. simpl. by rewrite (bind_eq _ _ _ _ _ Hon).
Qed.

(** A payload that is no JSON text, and one that is an array. *)
Lemma decode_failure_is_dropped_witness :
  onMsg env0 {| Subject := "bill.update"; Data := None |} (after twoStreams)
  = Ok (None,
        logged LogErrUnmarshalBillUpdate
          (logged (LogReceivedBillUpdate None) (after twoStreams))) ∧
  onMsg env0 {| Subject := "user.created"; Data := Some (json.Array []) |} newServer
  = Ok (None,
        logged (LogErrUnmarshalUserCreated (json.UnmarshalTypeError "array" ""))
          (logged (LogReceivedUserCreated (Some (json.Array []))) newServer)).
Proof.
  split.
  - apply (decode_failure_is_dropped env0 {| Subject := "bill.update"; Data := None |}
             json.SyntaxError).
    vm_compute. reflexivity.
  - apply (decode_failure_is_dropped env0
             {| Subject := "user.created"; Data := Some (json.Array []) |}
             (json.UnmarshalTypeError "array" "")).
    vm_compute. reflexivity.
Defined.

(** C9, as the code has it. A message on "bill.update" whose payload decodes
    to an event with fields Id and Message makes the callback build one
    notification, with the Id as [UserId] and the Message of the payload,
    unchanged, as [Message], and hand it to [broadcast] once under that Id;
    in a consistent state the callback has returned with that notification
    once the second has passed. *)
Theorem bill_update_passes_message env m event s :
  Subject m = "bill.update" →
  json.Unmarshal billUpdate_fields (Data m) zeroBillUpdate = (event, None) →
  let notif := {|
    notifpb.Id := uuid env;
    notifpb.UserId := Id event;
    notifpb.Message := Message event;
    notifpb.Timestamp := now env
  |} in
  onMsg env m s
  = (o ← broadcast (elapsed env) (pickTimer env) (Id event) notif;
     mret (Some (notif, o))) (logged (LogReceivedBillUpdate (Data m)) s) ∧
  (consistent s → (1 * time.Second ≤ elapsed env)%Z →
   ∃ o s', onMsg env m s = Ok (Some (notif, o), s')).
Proof.
  intros Hsubj Hd notif.
  assert (onMsg env m s
    = (o ← broadcast (elapsed env) (pickTimer env) (Id event) notif;
       mret (Some (notif, o))) (logged (LogReceivedBillUpdate (Data m)) s)) as Heq.
  { rewrite onMsg_billUpdate by done. by apply onBillUpdate_decoded. }
  split; [done|]. intros Hs Hlate. rewrite Heq.
  destruct (broadcast_returns (elapsed env) (pickTimer env) (Id event) notif
              (logged (LogReceivedBillUpdate (Data m)) s)) as (o & s' & Hb);
    [by apply consistent_logged|done|].
  exists o, s'. by rewrite (bind_eq _ _ _ _ _ Hb).
Qed.

(** With no stream open for "u2" the balance goes nowhere. *)
Lemma bill_update_passes_message_witness :
  onMsg env0 {| Subject := "bill.update"; Data := billUpdatePayload "u2" "Balance: $42.00" |}
    (after [Open "u1"])
  = Ok (Some (notifpb.mkNotification (uuid env0) "u2" "Balance: $42.00" (now env0), NoSubscriber),
        after [Open "u1";
               Publish env0 {| Subject := "bill.update";
                               Data := billUpdatePayload "u2" "Balance: $42.00" |}]).
Proof.
  destruct (bill_update_passes_message env0
              {| Subject := "bill.update"; Data := billUpdatePayload "u2" "Balance: $42.00" |}
              {| Id := "u2"; Message := "Balance: $42.00" |} (after [Open "u1"]))
    as [Heq _]; [reflexivity|reflexivity|].
  rewrite Heq. vm_compute. reflexivity.
Defined.

(** No callback runs for "ledger.updated": the payload is not decoded and
    no notification is built, with or without a stream for its user. *)
Lemma ledger_updated_counterexample :
  onMsg env0
    {| Subject := "ledger.updated"; Data := billUpdatePayload "u2" "Balance: $42.00" |}
    (after [Open "u2"])
  = Ok (None, after [Open "u2"]).
Proof. by vm_compute. Qed.

(** C10. A call of [broadcast] that returns, as NoSubscriber, Delivered or
    Dropped, leaves the map [subscribers] exactly as it was: it reads the
    map, and in the store it writes at most the queue of the subscriber it
    looked up, whose channel stays as open, and as large, as it was. *)
Theorem broadcast_keeps_subscribers elapsed pickTimer userID notif s o s' :
  broadcast elapsed pickTimer userID notif s = Ok (o, s') →
  subscribers s' = subscribers s ∧
  (∀ p, subscribers s !! userID ≠ Some p → heap s' !! p = heap s !! p) ∧
  (∀ p x, heap s !! p = Some x →
     ∃ q, heap s' !! p
          = Some (mkSubscriber (mkChan q (cap (ch x)) (closed (ch x))) (userId x))).
Proof.
  destruct (subscribers s !! userID) as [sub|] eqn:Hsub.
  - rewrite (broadcast_present _ _ _ _ _ _ Hsub). intros H.
    apply broadcastSelect_frame in H as (Hmap & Hframe & Hsame).
    split_and!; [done| |done].
    intros p Hp. apply Hframe. congruence.
  - rewrite (broadcast_absent _ _ _ _ _ Hsub). intros [= _ <-].
    split_and!; [done..|]. intros p [[q c b] u] Hp. by exists q.
Qed.

Lemma broadcast_keeps_subscribers_witness :
  subscribers
    (logged (LogBroadcasted "u1")
       (enqueued 0 (mkSubscriber (make 10) "u1") welcomeAna (after [Open "u1"])))
  = subscribers (after [Open "u1"]).
Proof.
  apply (broadcast_keeps_subscribers 0 false "u1" welcomeAna (after [Open "u1"]) Delivered).
  vm_compute. reflexivity.
Defined.

(** * Further properties of the notification service *)

(** ** Queues *)

(** X1. In every state the service can reach, the channel of every
    subscriber has capacity 10 and holds at most 10 records, and a send on
    an open channel has to wait exactly when 10 records are queued. *)
Theorem queue_never_exceeds_ten s sub x notif :
  reachable s → heap s !! sub = Some x →
  cap (ch x) = 10 ∧ length (buf (ch x)) ≤ 10 ∧
  (closed (ch x) = false →
   (trySend (ch x) notif = SendBlocks ↔ length (buf (ch x)) = 10)).
Proof.
  intros Hreach Hx.
  destruct (reachable_consistent _ Hreach) as [_ Hcap].
  destruct (Hcap _ _ Hx) as [Hc Hlen]. split_and!; [done..|].
  intros Hopen. unfold trySend. rewrite Hopen, Hc.
  destruct (Nat.ltb_spec (length (buf (ch x))) 10); split; (done || lia).
Qed.

Lemma queue_never_exceeds_ten_witness :
  trySend (mkChan (replicate 10 welcomeAna) 10 false) welcomeAna = SendBlocks ↔
  length (replicate 10 welcomeAna) = 10.
Proof.
  assert (reachable (after saturated)) as Hreach.
  { eapply reachable_after. vm_compute. reflexivity. }
  destruct (queue_never_exceeds_ten (after saturated) 0
              (mkSubscriber (mkChan (replicate 10 welcomeAna) 10 false) "u1")
              welcomeAna Hreach) as (_ & _ & Hblocks).
  - vm_compute. reflexivity.
  - apply Hblocks. reflexivity.
Defined.

(** Deliveries to a queue with room for them all: each is Delivered and the
    records are appended in the order of the calls. *)
Lemma broadcastAll_appends userID notifs : ∀ s sub x,
  subscribers s !! userID = Some sub → heap s !! sub = Some x →
  closed (ch x) = false →
  length (buf (ch x)) + length notifs ≤ cap (ch x) →
  ∃ s',
    broadcastAll userID notifs s = Ok (replicate (length notifs) Delivered, s') ∧
    subscribers s' = subscribers s ∧
    heap s' !! sub
    = Some (mkSubscriber (mkChan (buf (ch x) ++ notifs) (cap (ch x)) false) (userId x)) ∧
    (∀ p, p ≠ sub → heap s' !! p = heap s !! p).
Proof.
  induction notifs as [|notif notifs IH]; intros s sub x Hsub Hx Hopen Hroom.
  - exists s. rewrite app_nil_r. split_and!; [done..| |done].
    rewrite Hx. destruct x as [[q c b] u]. simpl in *. by subst b.
  - simpl in Hroom.
    assert (broadcast 0 false userID notif s
            = Ok (Delivered, logged (LogBroadcasted userID) (enqueued sub x notif s)))
      as Hb.
    { rewrite (broadcast_present _ _ _ _ _ _ Hsub).
      apply broadcastSelect_send; [done..|lia|done]. }
    destruct (IH (logged (LogBroadcasted userID) (enqueued sub x notif s)) sub
                (mkSubscriber (mkChan (buf (ch x) ++ [notif]) (cap (ch x)) false) (userId x)))
      as (s' & Hall & Hsubs & Hq & Hframe).
    + done.
    + simpl. apply list_lookup_insert_eq. eauto using lookup_lt_Some.
    + done.
    + simpl. rewrite length_app. simpl. lia.
    + exists s'. simpl. rewrite (bind_eq _ _ _ _ _ Hb), (bind_eq _ _ _ _ _ Hall).
      split_and!; [done|done| |].
      * rewrite Hq. simpl. by rewrite <- app_assoc.
      * intros p Hp. rewrite (Hframe p Hp). simpl. by apply list_lookup_insert_ne.
Qed.

(** Passes that all take a record from the channel and send it with
    success: they send the oldest records, oldest first. *)
Lemma sendLoopSent_drains userID sub : ∀ q1 q2 s x,
  heap s !! sub = Some x → closed (ch x) = false → buf (ch x) = q1 ++ q2 →
  ∃ s',
    sendLoopSent userID sub (replicate (length q1) (CaseNotif None)) s
    = Ok ((q1, None), s') ∧
    subscribers s' = subscribers s ∧
    heap s' !! sub = Some (mkSubscriber (mkChan q2 (cap (ch x)) false) (userId x)) ∧
    (∀ p, p ≠ sub → heap s' !! p = heap s !! p).
Proof.
  induction q1 as [|n q1 IH]; intros q2 s x Hx Hopen Hbuf.
  - exists s. split_and!; [done..| |done].
    rewrite Hx. destruct x as [[q c b] u]. simpl in *. by subst.
  - simpl in Hbuf.
    pose proof (sessionStep_sent userID sub x s Hx Hopen _ _ Hbuf) as Hstep.
    destruct (IH q2 (dequeued sub x (q1 ++ q2) s)
                (mkSubscriber (mkChan (q1 ++ q2) (cap (ch x)) false) (userId x)))
      as (s' & Hloop & Hsubs & Hq & Hframe).
    + simpl. apply list_lookup_insert_eq. eauto using lookup_lt_Some.
    + done.
    + done.
    + exists s'. simpl. rewrite (bind_eq _ _ _ _ _ Hstep). simpl.
      rewrite (bind_eq _ _ _ _ _ Hloop).
      split_and!; [done..|].
      intros p Hp. rewrite (Hframe p Hp). simpl. by apply list_lookup_insert_ne.
Qed.

(** X2. The queue is first in, first out, from [broadcast] to
    [stream.Send]: with a subscriber registered under [userID] whose queue
    [q] has room for [notifs], the calls of [broadcast] for them are all
    Delivered, and the passes of the send loop that follow hand to
    [stream.Send] first the records of [q] and then [notifs], each once and
    in the order of the calls, leaving the queue empty and the subscriber
    registered. *)
Theorem queue_is_first_in_first_out userID notifs s sub x :
  consistent s → subscribers s !! userID = Some sub → heap s !! sub = Some x →
  length (buf (ch x)) + length notifs ≤ 10 →
  ∃ s1 s2,
    broadcastAll userID notifs s = Ok (replicate (length notifs) Delivered, s1) ∧
    queue s1 sub = buf (ch x) ++ notifs ∧
    sendLoopSent userID sub
      (replicate (length (buf (ch x) ++ notifs)) (CaseNotif None)) s1
    = Ok ((buf (ch x) ++ notifs, None), s2) ∧
    queue s2 sub = [] ∧ subscribers s2 !! userID = Some sub.
Proof.
  intros [Hmap Hcap] Hsub Hx Hroom.
  destruct (Hmap _ _ Hsub) as (y & Hy & _ & Hopen).
  assert (y = x) as -> by congruence.
  destruct (Hcap _ _ Hx) as [Hc _].
  destruct (broadcastAll_appends userID notifs s sub x) as (s1 & Hall & Hsubs1 & Hq1 & _);
    [done..|lia|].
  destruct (sendLoopSent_drains userID sub (buf (ch x) ++ notifs) [] s1
              (mkSubscriber (mkChan (buf (ch x) ++ notifs) (cap (ch x)) false) (userId x)))
    as (s2 & Hloop & Hsubs2 & Hq2 & _); [done|done|by rewrite app_nil_r|].
  exists s1, s2. split_and!; [done| |done| |].
  - unfold queue. by rewrite Hq1.
  - unfold queue. by rewrite Hq2.
  - by rewrite Hsubs2, Hsubs1.
Qed.

Lemma queue_is_first_in_first_out_witness :
  result (sendLoopSent "u1" 0 [CaseNotif None; CaseNotif None]
            (after [Open "u1"; Select 0 false 0 welcomeAna; Select 0 false 0 billAna]))
  = Some ([welcomeAna; billAna], None).
Proof.
  assert (consistent (after [Open "u1"])) as Hs.
  { apply reachable_consistent. eapply reachable_after. vm_compute. reflexivity. }
  destruct (queue_is_first_in_first_out "u1" [welcomeAna; billAna] (after [Open "u1"]) 0
              (mkSubscriber (make 10) "u1") Hs) as (s1 & s2 & Hall & _ & Hloop & _).
  - vm_compute. reflexivity.
  - vm_compute. reflexivity.
  - simpl. lia.
  - vm_compute in Hall. injection Hall as <-. vm_compute in Hloop.
    injection Hloop as <-. vm_compute. reflexivity.
Defined.

(** X3. A record whose [stream.Send] fails is lost with all that are queued
    behind it: when the send loop has sent the [k] oldest records and the
    transport refuses the next, the function returns that error, the
    deferred function runs, and the records behind stay in the closed
    channel for good: the goroutine is gone, the key is deleted and the
    subscriber is never changed again, whatever runs later. *)
Theorem send_failure_discards_the_rest userID sub x q1 notif q2 err rest s :
  consistent s → heap s !! sub = Some x → userId x = userID →
  closed (ch x) = false → buf (ch x) = q1 ++ notif :: q2 →
  ∃ s',
    sendLoopSent userID sub
      (replicate (length q1) (CaseNotif None) ++ CaseNotif (Some err) :: rest) s
    = Ok ((q1, Some err), s') ∧
    subscribers s' !! userID = None ∧
    heap s' !! sub = Some (mkSubscriber (mkChan q2 (cap (ch x)) true) userID) ∧
    ∀ acts s'', run acts s' = Ok ((), s'') →
      heap s'' !! sub = heap s' !! sub ∧ ∀ u, subscribers s'' !! u ≠ Some sub.
Proof.
  intros Hs Hx Hid Hopen Hbuf.
  assert (∀ q1 s x,
    consistent s → heap s !! sub = Some x → userId x = userID →
    closed (ch x) = false → buf (ch x) = q1 ++ notif :: q2 →
    ∃ s',
      sendLoopSent userID sub
        (replicate (length q1) (CaseNotif None) ++ CaseNotif (Some err) :: rest) s
      = Ok ((q1, Some err), s') ∧
      consistent s' ∧
      subscribers s' !! userID = None ∧
      heap s' !! sub = Some (mkSubscriber (mkChan q2 (cap (ch x)) true) userID))
    as Hloop.
  { clear. induction q1 as [|n q1 IH]; intros s x Hs Hx Hid Hopen Hbuf.
    - simpl in Hbuf.
      pose proof (sessionStep_sendError userID sub x s Hx Hopen _ _ err Hbuf) as Hstep.
      eexists. simpl. rewrite (bind_eq _ _ _ _ _ Hstep). subst userID.
      split_and!; [done| | |].
      + by eapply consistent_sessionStep.
      + apply lookup_delete_eq.
      + simpl. apply list_lookup_insert_eq. eauto using lookup_lt_Some.
    - simpl in Hbuf.
      pose proof (sessionStep_sent userID sub x s Hx Hopen _ _ Hbuf) as Hstep.
      destruct (IH (dequeued sub x (q1 ++ notif :: q2) s)
                  (mkSubscriber (mkChan (q1 ++ notif :: q2) (cap (ch x)) false) (userId x)))
        as (s' & Hrest & Hs' & Hgone & Hq).
      + subst userID. by eapply consistent_sessionStep.
      + simpl. apply list_lookup_insert_eq. eauto using lookup_lt_Some.
      + done.
      + done.
      + done.
      + exists s'. simpl. rewrite (bind_eq _ _ _ _ _ Hstep). simpl.
        by rewrite (bind_eq _ _ _ _ _ Hrest). }
  destruct (Hloop q1 s x Hs Hx Hid Hopen Hbuf) as (s' & Hrun & Hs' & Hgone & Hq).
  exists s'. split_and!; [done..|].
  intros acts s'' Hacts.
  pose proof (frozen_run _ _ _ _ _ Hq eq_refl Hacts) as Hfrozen.
  split; [by rewrite Hfrozen, Hq|].
  intros u Hu. destruct (consistent_run _ _ _ Hs' Hacts) as [Hmap _].
  destruct (Hmap _ _ Hu) as (z & Hz & _ & Hzopen).
  rewrite Hfrozen in Hz. by injection Hz as <-.
Qed.

Lemma send_failure_discards_the_rest_witness :
  result (sendLoopSent "u1" 0 [CaseNotif None; CaseNotif (Some "transport is closing")]
            (after (Open "u1" :: replicate 3 (Select 0 false 0 welcomeAna))))
  = Some ([welcomeAna], Some "transport is closing").
Proof.
  assert (consistent (after (Open "u1" :: replicate 3 (Select 0 false 0 welcomeAna))))
    as Hs.
  { apply reachable_consistent. eapply reachable_after. vm_compute. reflexivity. }
  destruct (send_failure_discards_the_rest "u1" 0
              (mkSubscriber (mkChan (replicate 3 welcomeAna) 10 false) "u1")
              [welcomeAna] welcomeAna [welcomeAna] "transport is closing" [] _ Hs)
    as (s' & Hloop & _).
  - vm_compute. reflexivity.
  - reflexivity.
  - reflexivity.
  - reflexivity.
  - vm_compute in Hloop. injection Hloop as <-. vm_compute. reflexivity.
Defined.

(** ** Opening a second stream *)

(** X4. The last stream opened for a user is the one that is served: when
    a subscriber is registered under [userID] and [SubscribeToNotifications]
    is called again for that user, the map points to the new subscriber,
    the old one stays as it is, open and with its queue, the other users
    keep their registrations, and no call of [broadcast] for [userID]
    reaches the old subscriber any more. *)
Theorem second_stream_takes_over userID old s :
  consistent s → subscribers s !! userID = Some old →
  ∃ new s',
    SubscribeToNotifications userID [] s = Ok ((new, None), s') ∧
    new ≠ old ∧ consistent s' ∧
    subscribers s' !! userID = Some new ∧
    heap s' !! new = Some (mkSubscriber (make 10) userID) ∧
    heap s' !! old = heap s !! old ∧
    (∀ u, u ≠ userID → subscribers s' !! u = subscribers s !! u) ∧
    ∀ elapsed pickTimer notif o s'',
      broadcast elapsed pickTimer userID notif s' = Ok (o, s'') →
      heap s'' !! old = heap s !! old.
Proof.
  intros Hs Hsub. destruct Hs as [Hmap Hcap].
  destruct (Hmap _ _ Hsub) as (x & Hx & Hid & Hopen).
  pose proof (lookup_lt_Some _ _ _ Hx) as Hlt.
  exists (length (heap s)). eexists. split; [reflexivity|].
  assert ((heap s ++ [mkSubscriber (make 10) userID]) !! old = heap s !! old) as Hold.
  { by apply lookup_app_l. }
  split_and!; simpl.
  - lia.
  - by eapply consistent_attach; [split|apply attach_eq].
  - apply lookup_insert_eq.
  - by rewrite lookup_app_r, Nat.sub_diag.
  - done.
  - intros u Hu. by apply lookup_insert_ne.
  - intros e pk notif o s'' H.
    rewrite (broadcast_present _ _ _ _ _ (length (heap s))) in H
      by apply lookup_insert_eq.
    apply broadcastSelect_frame in H as (_ & Hframe & _).
    rewrite Hframe by lia. done.
Qed.

Lemma second_stream_takes_over_witness :
  result (SubscribeToNotifications "u4" [] (after [Open "u4"])) = Some (1, None).
Proof.
  assert (consistent (after [Open "u4"])) as Hs.
  { apply reachable_consistent. eapply reachable_after. vm_compute. reflexivity. }
  destruct (second_stream_takes_over "u4" 0 (after [Open "u4"]) Hs)
    as (new & s' & Hcall & _).
  - vm_compute. reflexivity.
  - vm_compute in Hcall. injection Hcall as <- _. vm_compute. reflexivity.
Defined.

(** ** The listener *)

Lemma broadcast_subscribers elapsed pickTimer userID notif s o s' :
  broadcast elapsed pickTimer userID notif s = Ok (o, s') →
  subscribers s' = subscribers s.
Proof.
  destruct (subscribers s !! userID) as [sub|] eqn:Hsub.
  - rewrite (broadcast_present _ _ _ _ _ _ Hsub). intros H.
    by apply broadcastSelect_frame in H as (Hsubs & _).
  - rewrite (broadcast_absent _ _ _ _ _ Hsub). by intros [= _ <-].
Qed.

(** A message whose [select], if it comes to one, is resolved when the
    second has passed is handled to the end. *)
Lemma onMsg_returns env m s :
  consistent s → (1 * time.Second ≤ elapsed env)%Z →
  ∃ r s', onMsg env m s = Ok (r, s') ∧ subscribers s' = subscribers s ∧ consistent s'.
Proof.
  intros Hs Hlate.
  assert (∀ r s', onMsg env m s = Ok (r, s') →
    subscribers s' = subscribers s ∧ consistent s') as Hkeep.
  { intros r s' H. split; [|by eapply consistent_onMsg].
    apply onMsg_Ok in H. destruct r as [[notif o]|]; [|by destruct H].
    destruct H as [_ [l H]]. by apply broadcast_subscribers in H. }
  assert (∃ r s', onMsg env m s = Ok (r, s')) as (r & s' & H); [|by eauto].
  unfold onMsg. repeat case_bool_decide; [| |by eexists _, _].
  - destruct (json.Unmarshal UserCreatedEvent_fields (Data m) zeroUserCreatedEvent)
      as [event [e|]] eqn:Hd.
    + rewrite (onUserCreated_error _ _ _ _ _ Hd). by eexists _, _.
    + rewrite (onUserCreated_decoded _ _ _ _ Hd).
      edestruct broadcast_returns as (o & s' & Hb);
        [by apply consistent_logged|done|].
      rewrite (bind_eq _ _ _ _ _ Hb). by eexists _, _.
  - destruct (json.Unmarshal billUpdate_fields (Data m) zeroBillUpdate)
      as [event [e|]] eqn:Hd.
    + rewrite (onBillUpdate_error _ _ _ _ _ Hd). by eexists _, _.
    + rewrite (onBillUpdate_decoded _ _ _ _ Hd).
      edestruct broadcast_returns as (o & s' & Hb);
        [by apply consistent_logged|done|].
      rewrite (bind_eq _ _ _ _ _ Hb). by eexists _, _.
Qed.

(** X5. The listener is never held up for good and never brought down by a
    message: whatever the messages are (any subject, any payload, any
    recipient, queues full or not), when each [select] is resolved once its
    second has passed, [subscribeToEvents] handles them all, with one
    result for each, neither blocking nor panicking, and leaves the map of
    subscribers as it was. *)
Theorem listener_handles_every_message events s :
  consistent s →
  Forall (λ em : Env * Msg, (1 * time.Second ≤ elapsed em.1)%Z) events →
  ∃ rs s',
    subscribeToEvents events s = Ok (rs, s') ∧
    length rs = length events ∧
    subscribers s' = subscribers s ∧ consistent s'.
Proof.
  revert s. induction events as [|[env m] events IH]; intros s Hs Hlate.
  - by exists [], s.
  - apply Forall_cons in Hlate as [Hnow Hlate].
    destruct (onMsg_returns env m s Hs Hnow) as (r & s1 & Hon & Hsubs1 & Hs1).
    destruct (IH s1 Hs1 Hlate) as (rs & s' & Hrest & Hlen & Hsubs & Hs').
    exists (r :: rs), s'. simpl.
    rewrite (bind_eq _ _ _ _ _ Hon), (bind_eq _ _ _ _ _ Hrest).
    split_and!; [done|simpl; by rewrite Hlen|congruence|done].
Qed.

Lemma listener_handles_every_message_witness :
  result (subscribeToEvents
            [(late, billFor "u1"); (late, {| Subject := "bill.update"; Data := None |});
             (late, billFor "u9")]
            (after saturated))
  = Some [Some (notifpb.mkNotification "c3f0" "u1" "Your bill was updated to 42.00"
                  "2025-01-01 00:00:02 +0000 UTC", Dropped);
          None;
          Some (notifpb.mkNotification "c3f0" "u9" "Your bill was updated to 42.00"
                  "2025-01-01 00:00:02 +0000 UTC", NoSubscriber)].
Proof.
  assert (consistent (after saturated)) as Hs.
  { apply reachable_consistent. eapply reachable_after. vm_compute. reflexivity. }
  destruct (listener_handles_every_message
              [(late, billFor "u1"); (late, {| Subject := "bill.update"; Data := None |});
               (late, billFor "u9")] (after saturated) Hs) as (rs & s' & Hrun & _).
  - repeat constructor; vm_compute; discriminate.
  - vm_compute in Hrun. injection Hrun as <- <-. vm_compute. reflexivity.
Defined.

(** * The services around it *)

(** ** What [json.Marshal] writes, read back *)

(** A string of ASCII bytes goes through [json.Marshal] unchanged. *)
Lemma coerce_ascii s :
  Forall (λ c, nat_of_ascii c < 128) (list_ascii_of_string s) → utf8.coerce s = s.
Proof.
  induction s as [|c s IH]; [done|]. simpl. intros H.
  apply Forall_cons in H as [Hc H].
  unfold utf8.first. destruct (Nat.ltb_spec (nat_of_ascii c) 128) as [_|?]; [|lia].
  simpl. by rewrite IH.
Qed.

(** The event of user-ms, as the two services that subscribe to
    "user.created" decode it. *)
Lemma UserCreatedEvent_round_trip event :
  json.Unmarshal UserCreatedEvent_fields
    (Some (jsonenc.Marshal UserCreatedEvent_out event).1) zeroUserCreatedEvent
  = ({| UID := utf8.coerce (UID event); Username := utf8.coerce (Username event) |}, None).
Proof. done. Qed.

(** The message of billing-ms, as notification-ms decodes it. *)
Lemma msg_round_trip msg :
  json.Unmarshal billUpdate_fields
    (Some (jsonenc.Marshal billingms.msg_out msg).1) zeroBillUpdate
  = ({| Id := utf8.coerce (billingms.Id msg);
        Message := utf8.coerce (billingms.Message msg) |}, None).
Proof. done. Qed.

(** ** user-ms *)

Lemma insertUser_Ok fault r s s' :
  userms.insertUser fault r s = (None, s') →
  fault = None ∧ Forall (λ r', userms.id r' ≠ userms.id r) (userms.db s) ∧
  s' = userms.mkServer (userms.db s ++ [r]) (userms.nc s) (userms.logs s).
Proof.
  unfold userms.insertUser. destruct fault; [done|].
  destruct (existsb _ _) eqn:Hex; [done|]. intros [= <-]. split_and!; [done| |done].
  apply Forall_forall. intros r' Hin Heq.
  assert (existsb (λ r'0, bool_decide (userms.id r'0 = userms.id r)) (userms.db s) = true)
    as Ht; [|congruence].
  apply existsb_exists. exists r'. split; [by apply list_elem_of_In|].
  by apply bool_decide_eq_true.
Qed.

Lemma insertUser_error fault r s err s' :
  userms.insertUser fault r s = (Some err, s') → s' = s.
Proof.
  unfold userms.insertUser. destruct fault; [by intros [= _ <-]|].
  destruct (existsb _ _); [by intros [= _ <-]|done].
Qed.

(** A call of [Register] that returns an id has stored one row with it and
    with the hash, and has handed one event to NATS. *)
Lemma Register_Done env Email Password u uid u' :
  userms.Register env Email Password u = (Done uid, u') →
  Email ≠ "" ∧ Password ≠ "" ∧ uid = userms.uuid env ∧
  Forall (λ r, userms.id r ≠ uid) (userms.db u) ∧
  ∃ h, userms.hashed env = Some h ∧
    u' = userms.mkServer (userms.db u ++ [userms.mkRow uid Email h])
           (nats.Publish (userms.connected env) "user.created"
              (jsonenc.Marshal UserCreatedEvent_out {| UID := uid; Username := Email |}).1
              (userms.nc u))
           (userms.logs u).
Proof.
  unfold userms.Register.
  case_bool_decide as He; [done|]. case_bool_decide as Hp; [done|]. simpl.
  destruct (userms.hashed env) as [h|]; [|done].
  destruct (userms.insertUser _ _ u) as [[err|] s1] eqn:Hins; [done|].
  apply insertUser_Ok in Hins as (_ & Hfresh & ->). simpl.
  intros [= <- <-]. split_and!; [done..|]. by exists h.
Qed.

(** A call of [Register] that returns an error has stored and sent nothing. *)
Lemma Register_Failed env Email Password u err u' :
  userms.Register env Email Password u = (Failed err, u') →
  userms.db u' = userms.db u ∧ userms.nc u' = userms.nc u ∧
  (Email = "" ∨ Password = "" → err = "bad input").
Proof.
  unfold userms.Register.
  destruct (bool_decide (Email = "") || bool_decide (Password = "")) eqn:Hbad.
  - by intros [= <- <-].
  - apply orb_false_iff in Hbad as [He%bool_decide_eq_false Hp%bool_decide_eq_false].
    destruct (userms.hashed env) as [h|]; [|intros [= <- <-]; split_and!; [done..|tauto]].
    destruct (userms.insertUser _ _ u) as [[e|] s1] eqn:Hins.
    + apply insertUser_error in Hins as ->. intros [= <- <-]. split_and!; [done..|tauto].
    + done.
Qed.

(** ** From one service to the next *)

(** X6. A registration reaches both other services. When [Register]
    returns the id [uid] and NATS is connected, it has published one
    message on "user.created"; the callback of notification-ms turns it
    into the welcome for the email, addressed to [uid] as the event
    carries it, and puts it on the queue of the stream open for that id
    when there is room; the callback of billing-ms creates the account, so
    that [GetBilling] gives the amount a REAL column returns for 0. *)
Theorem registration_reaches_both_services (real : float → float)
    renv Email Password u uid u' nenv s sub x b :
  userms.Register renv Email Password u = (Done uid, u') →
  userms.connected renv = true →
  consistent s →
  subscribers s !! utf8.coerce uid = Some sub →
  heap s !! sub = Some x →
  length (buf (ch x)) < 10 →
  time.After (1 * time.Second) (elapsed nenv) && pickTimer nenv = false →
  billingms.db b !! utf8.coerce uid = None →
  ∃ m welcome s',
    userms.nc u' = userms.nc u ++ [m] ∧
    welcome = {| notifpb.Id := uuid nenv;
                 notifpb.UserId := utf8.coerce uid;
                 notifpb.Message :=
                   "Welcome to the platform, " +:+ utf8.coerce Email +:+ "!";
                 notifpb.Timestamp := now nenv |} ∧
    onMsg nenv m s = Ok (Some (welcome, Delivered), s') ∧
    queue s' sub = buf (ch x) ++ [welcome] ∧
    billingms.GetBilling None (utf8.coerce uid) (billingms.onMsg real None m b)
    = Done (real 0%float).
Proof.
  intros Hreg Hnats [Hmap Hcap] Hsub Hx Hroom Hpick Hnew.
  apply Register_Done in Hreg as (_ & _ & _ & _ & h & _ & ->).
  rewrite Hnats. simpl.
  destruct (Hmap _ _ Hsub) as (y & Hy & _ & Hopen).
  assert (y = x) as -> by congruence.
  destruct (Hcap _ _ Hx) as [Hc _].
  set (event := {| UID := uid; Username := Email |}).
  set (m := {| Subject := "user.created";
               Data := Some (jsonenc.Marshal UserCreatedEvent_out event).1 |}).
  exists m. eexists _, _. split_and!; [done|done| | |].
  - rewrite onMsg_userCreated by done.
    rewrite (onUserCreated_decoded nenv m _ _ (UserCreatedEvent_round_trip event)). simpl.
    unfold mbind at 1, M_bind.
    rewrite (broadcast_present _ _ _ _ _ sub) by done.
    rewrite (broadcastSelect_send _ _ _ _ _ sub x); [done|done|done|simpl; lia|done].
  - unfold queue. simpl. rewrite list_lookup_insert_eq; [done|].
    by apply lookup_lt_Some in Hx.
  - unfold billingms.onMsg, billingms.onUserCreated. simpl.
    unfold billingms.insertBilling. simpl. rewrite Hnew.
    unfold billingms.GetBilling. simpl. by rewrite lookup_insert_eq.
Qed.

Lemma registration_reaches_both_services_witness :
  ∃ m, userms.nc (userms.Register registerAna "ana@example.com" "pw" noUsers).2 = [m] ∧
    queue (match onMsg env0 m (after [Open "u1"]) with Ok (_, s') => s' | _ => newServer end) 0
    = [notifpb.mkNotification "5d41" "u1" "Welcome to the platform, ana@example.com!"
         "2025-01-01 00:00:00 +0000 UTC"] ∧
    billingms.GetBilling None "u1" (billingms.onMsg exact None m noAccounts) = Done 0%float.
Proof.
  assert (consistent (after [Open "u1"])) as Hs.
  { apply reachable_consistent. eapply reachable_after. vm_compute. reflexivity. }
  destruct (registration_reaches_both_services exact registerAna "ana@example.com" "pw"
              noUsers "u1" (userms.Register registerAna "ana@example.com" "pw" noUsers).2
              env0 (after [Open "u1"]) 0 (mkSubscriber (make 10) "u1") noAccounts)
    as (m & welcome & s' & Hnc & -> & Hmsg & Hq & Hbill).
  - vm_compute. reflexivity.
  - reflexivity.
  - exact Hs.
  - vm_compute. reflexivity.
  - vm_compute. reflexivity.
  - simpl. lia.
  - reflexivity.
  - vm_compute. reflexivity.
  - exists m. split; [exact Hnc|]. rewrite Hmsg. split; [exact Hq|exact Hbill].
Defined.

(** ** user-ms: registering and logging in *)

Lemma filter_email_none Email (rows : list userms.row) :
  Forall (λ r, userms.email r ≠ Email) rows →
  filter (λ r, userms.email r = Email) rows = [].
Proof.
  induction 1 as [|r rows Hr _ IH]; [done|].
  by rewrite filter_cons_False.
Qed.

(** X7. Logging in after registering. After [Register] has returned [uid]
    for an email no row had before, [Login] with that email returns the
    token "sample-jwt-token-for-" followed by [uid] and the user [uid]
    exactly for the passwords that bcrypt accepts for the stored hash, and
    "invalid credentials" for every other one, whichever row the database
    gives first. *)
Theorem login_after_register (CompareHashAndPassword : string → string → bool)
    renv lenv Email Password Password' u uid u' h :
  userms.Register renv Email Password u = (Done uid, u') →
  userms.hashed renv = Some h →
  Forall (λ r, userms.email r ≠ Email) (userms.db u) →
  userms.queryFault lenv = None →
  userms.Login CompareHashAndPassword lenv Email Password' u'
  = if CompareHashAndPassword h Password' then
      (Done {| userms.Token := "sample-jwt-token-for-" +:+ uid;
               userms.LoginUser :=
                 {| userms.User_Id := uid; userms.User_Email := Email |} |},
       userms.log userms.LogUserBuilt u')
    else (Failed "invalid credentials", u').
Proof.
  intros Hreg Hh Hnew Hq.
  apply Register_Done in Hreg as (_ & _ & _ & _ & h0 & Hh0 & ->).
  assert (h0 = h) as -> by congruence.
  unfold userms.Login. rewrite Hq. simpl.
  rewrite filter_app, (filter_email_none _ _ Hnew), filter_cons_True by done.
  cbn [app filter list_filter length]. by rewrite Nat.mod_1_r.
Qed.

Lemma login_after_register_witness :
  (userms.Login compareExample firstStored "ana@example.com" "pw"
     (userms.Register registerAna "ana@example.com" "pw" noUsers).2).1
  = Done {| userms.Token := "sample-jwt-token-for-u1";
            userms.LoginUser :=
              {| userms.User_Id := "u1"; userms.User_Email := "ana@example.com" |} |}.
Proof.
  rewrite (login_after_register compareExample registerAna firstStored "ana@example.com"
             "pw" "pw" noUsers "u1" _ "hash-of-pw").
  - reflexivity.
  - vm_compute. reflexivity.
  - reflexivity.
  - constructor.
  - reflexivity.
Defined.

Lemma mod_2_even n : n `mod` 2 = if Nat.even n then 0 else 1.
Proof.
  destruct (Nat.even n) eqn:He.
  - apply Nat.even_spec in He as [k ->]. rewrite Nat.mul_comm. apply Nat.Div0.mod_mul.
  - assert (Nat.odd n = true) as Ho by (by rewrite <- Nat.negb_even, He).
    apply Nat.odd_spec in Ho as [k ->].
    rewrite Nat.add_comm, Nat.mul_comm. by rewrite Nat.Div0.mod_add.
Qed.

(** X8. An email can be registered twice, and then the database decides
    who logs in. [Register] does not look for the email in the table: a
    second registration with it is stored under a second id, and [Login]
    with that email compares the password with the hash of the row the
    database gives first, so that the password of one registration is
    accepted or refused by the order of the rows. *)
Theorem reused_email_makes_login_ambiguous
    (CompareHashAndPassword : string → string → bool)
    env1 env2 lenv Email P1 P2 Password u uid1 u1 uid2 u2 h1 h2 :
  userms.Register env1 Email P1 u = (Done uid1, u1) →
  userms.Register env2 Email P2 u1 = (Done uid2, u2) →
  userms.hashed env1 = Some h1 →
  userms.hashed env2 = Some h2 →
  Forall (λ r, userms.email r ≠ Email) (userms.db u) →
  userms.queryFault lenv = None →
  uid1 ≠ uid2 ∧
  userms.Login CompareHashAndPassword lenv Email Password u2
  = let (uid, h) := if Nat.even (userms.firstRow lenv) then (uid1, h1) else (uid2, h2) in
    if CompareHashAndPassword h Password then
      (Done {| userms.Token := "sample-jwt-token-for-" +:+ uid;
               userms.LoginUser :=
                 {| userms.User_Id := uid; userms.User_Email := Email |} |},
       userms.log userms.LogUserBuilt u2)
    else (Failed "invalid credentials", u2).
Proof.
  intros Hreg1 Hreg2 Hh1 Hh2 Hnew Hq.
  apply Register_Done in Hreg1 as (_ & _ & _ & _ & h & Hh & ->).
  assert (h = h1) as -> by congruence.
  apply Register_Done in Hreg2 as (_ & _ & _ & Hfresh & h & Hh' & ->).
  assert (h = h2) as -> by congruence.
  simpl in Hfresh. apply Forall_app in Hfresh as [_ Hfresh].
  rewrite Forall_singleton in Hfresh. simpl in Hfresh.
  split; [done|].
  unfold userms.Login. rewrite Hq. simpl.
  rewrite !filter_app, (filter_email_none _ _ Hnew), !filter_cons_True by done.
  cbn [app filter list_filter length]. rewrite mod_2_even.
  by destruct (Nat.even (userms.firstRow lenv)).
Qed.

Lemma reused_email_makes_login_ambiguous_witness :
  (userms.Login compareExample firstStored "ana@example.com" "pw"
     (userms.Register registerAgain "ana@example.com" "other"
        (userms.Register registerAna "ana@example.com" "pw" noUsers).2).2).1
  = Done {| userms.Token := "sample-jwt-token-for-u1";
            userms.LoginUser :=
              {| userms.User_Id := "u1"; userms.User_Email := "ana@example.com" |} |} ∧
  (userms.Login compareExample secondStored "ana@example.com" "pw"
     (userms.Register registerAgain "ana@example.com" "other"
        (userms.Register registerAna "ana@example.com" "pw" noUsers).2).2).1
  = Failed "invalid credentials".
Proof.
  split.
  - destruct (reused_email_makes_login_ambiguous compareExample registerAna registerAgain
                firstStored "ana@example.com" "pw" "other" "pw" noUsers "u1"
                (userms.Register registerAna "ana@example.com" "pw" noUsers).2 "u2"
                (userms.Register registerAgain "ana@example.com" "other"
                   (userms.Register registerAna "ana@example.com" "pw" noUsers).2).2
                "hash-of-pw" "hash-of-other") as [_ ->].
    + vm_compute. reflexivity.
    + vm_compute. reflexivity.
    + reflexivity.
    + reflexivity.
    + constructor.
    + reflexivity.
    + reflexivity.
  - destruct (reused_email_makes_login_ambiguous compareExample registerAna registerAgain
                secondStored "ana@example.com" "pw" "other" "pw" noUsers "u1"
                (userms.Register registerAna "ana@example.com" "pw" noUsers).2 "u2"
                (userms.Register registerAgain "ana@example.com" "other"
                   (userms.Register registerAna "ana@example.com" "pw" noUsers).2).2
                "hash-of-pw" "hash-of-other") as [_ ->].
    + vm_compute. reflexivity.
    + vm_compute. reflexivity.
    + reflexivity.
    + reflexivity.
    + constructor.
    + reflexivity.
    + reflexivity.
Defined.

(** ** api-gateway in front of user-ms *)

Lemma Contains_invalid_credentials :
  gateway.Contains (gateway.rpcError "invalid credentials") "invalid credentials" = true.
Proof. vm_compute. reflexivity. Qed.

Lemma Contains_internal_server_error :
  gateway.Contains (gateway.rpcError "internal server error") "invalid credentials" = false.
Proof. vm_compute. reflexivity. Qed.

(** X9. The answers of POST /login. For a body that decodes, the gateway
    answers 500 with the fixed text "An internal error occurred" exactly
    when the query of user-ms failed, whatever the failure was; otherwise
    200 with the response of [Login], or 401 with the text of the gRPC
    error for "invalid credentials", the same for an unknown email and for
    a wrong password. No answer changes the table of users. *)
Theorem login_answers (CompareHashAndPassword : string → string → bool)
    lenv Email Password u :
  let (w, u') :=
    gateway.handleLogin CompareHashAndPassword lenv (Some (Email, Password)) u
      gateway.newResponseWriter in
  userms.db u' = userms.db u ∧ userms.nc u' = userms.nc u ∧
  gateway.header w !! "Content-Type" = Some "application/json" ∧
  match userms.queryFault lenv with
  | Some _ =>
      gateway.status w = Some 500 ∧
      gateway.body w = [gateway.ErrorBody "An internal error occurred"]
  | None =>
      match (userms.Login CompareHashAndPassword lenv Email Password u).1 with
      | Done res =>
          gateway.status w = Some 200 ∧ gateway.body w = [gateway.ResultBody res]
      | Failed _ =>
          gateway.status w = Some 401 ∧
          gateway.body w
          = [gateway.ErrorBody "rpc error: code = Unknown desc = invalid credentials"]
      end
  end.
Proof.
  unfold gateway.handleLogin, userms.Login.
  destruct (userms.queryFault lenv) as [err|].
  - simpl gateway.invoke. cbv iota beta. rewrite Contains_internal_server_error. done.
  - destruct (_ !! _) as [r|].
    + destruct (CompareHashAndPassword _ _); [done|].
      simpl gateway.invoke. cbv iota beta. rewrite Contains_invalid_credentials. done.
    + simpl gateway.invoke. cbv iota beta. rewrite Contains_invalid_credentials. done.
Qed.

(** X10. The answers of POST /register. For a body that decodes, the
    gateway answers 200 with the new id, and then user-ms has stored the
    row with the email and the hash; or it answers 500 with the text of the
    gRPC error, and then nothing was stored or published. An empty email
    or password is among the latter: the answer is 500 with "rpc error:
    code = Unknown desc = bad input", not 400. *)
Theorem register_answers env Email Password u :
  let (w, u') :=
    gateway.handleRegister env (Some (Email, Password)) u gateway.newResponseWriter in
  (gateway.status w = Some 200 ∧
   gateway.body w = [gateway.ResultBody (userms.uuid env)] ∧
   Email ≠ "" ∧ Password ≠ "" ∧
   ∃ h, userms.hashed env = Some h ∧
     userms.db u' = userms.db u ++ [userms.mkRow (userms.uuid env) Email h]) ∨
  (gateway.status w = Some 500 ∧
   userms.db u' = userms.db u ∧ userms.nc u' = userms.nc u ∧
   ∃ desc, gateway.body w = [gateway.ErrorBody (gateway.rpcError desc)] ∧
     (Email = "" ∨ Password = "" → desc = "bad input")).
Proof.
  unfold gateway.handleRegister.
  destruct (userms.Register env Email Password u) as [[uid|err] u'] eqn:Hreg; simpl.
  - left. apply Register_Done in Hreg as (He & Hp & -> & _ & h & Hh & ->).
    split_and!; [done..|]. by exists h.
  - right. apply Register_Failed in Hreg as (Hdb & Hnc & Hbad).
    split_and!; [done..|]. by exists err.
Qed.

(** ** billing-ms *)

(** X11. Creating an account and reading it. For a user without a row,
    [CreateBillingAccount] succeeds, [GetBilling] then returns what the
    REAL column gives for 0, the answers for all other users are as
    before, and a second [CreateBillingAccount] for the user fails on the
    primary key and changes nothing. *)
Theorem billing_account_round_trip (real : float → float) UserId b :
  billingms.db b !! UserId = None →
  ∃ b',
    billingms.CreateBillingAccount real None UserId b = (Done true, b') ∧
    billingms.GetBilling None UserId b' = Done (real 0%float) ∧
    (∀ other, other ≠ UserId →
       billingms.GetBilling None other b' = billingms.GetBilling None other b) ∧
    billingms.CreateBillingAccount real None UserId b'
    = (Failed ("could not create billing account: " +:+ sql.uniqueViolation "billing_pkey"),
       b').
Proof.
  intros Hnew. eexists. split_and!.
  - unfold billingms.CreateBillingAccount, billingms.insertBilling. by rewrite Hnew.
  - unfold billingms.GetBilling. simpl. by rewrite lookup_insert_eq.
  - intros other Hne. unfold billingms.GetBilling. simpl.
    by rewrite lookup_insert_ne.
  - unfold billingms.CreateBillingAccount, billingms.insertBilling. simpl.
    by rewrite lookup_insert_eq.
Qed.

Lemma billing_account_round_trip_witness :
  billingms.GetBilling None "u1"
    (billingms.CreateBillingAccount exact None "u1" noAccounts).2
  = Done 0%float.
Proof.
  destruct (billing_account_round_trip exact "u1" noAccounts) as (b' & Hc & Hg & _).
  - reflexivity.
  - rewrite Hc. exact Hg.
Defined.

(** X12. POST /user/billing/update reports success for any user. With the
    database up and a body that decodes, the gateway answers 200 with
    success; [GetBilling] for the user then returns what the REAL column
    gives for the amount if the user had an account, and still fails with
    "sql: no rows in result set" if not: the update of no row is no error.
    The accounts of all other users are as before. *)
Theorem update_reports_success_for_any_user (real : float → float)
    (fixed2 : float → string) connected UserId Amount b :
  let (w, b') :=
    gateway.handleUpdateBilling real fixed2 None connected (Some (UserId, Amount)) b
      gateway.newResponseWriter in
  gateway.status w = Some 200 ∧ gateway.body w = [gateway.ResultBody true] ∧
  billingms.GetBilling None UserId b'
  = match billingms.db b !! UserId with
    | Some _ => Done (real Amount)
    | None => Failed "could not get billing: sql: no rows in result set"
    end ∧
  ∀ other, other ≠ UserId →
    billingms.GetBilling None other b' = billingms.GetBilling None other b.
Proof.
  unfold gateway.handleUpdateBilling, billingms.UpdateBilling, billingms.updateBilling.
  destruct (billingms.db b !! UserId) as [a|] eqn:Hrow; simpl.
  - split_and!; [done..| |].
    + unfold billingms.GetBilling. simpl. by rewrite lookup_insert_eq.
    + intros other Hne. unfold billingms.GetBilling. simpl. by rewrite lookup_insert_ne.
  - split_and!; [done..| |done].
    unfold billingms.GetBilling. simpl. by rewrite Hrow.
Qed.

(** X13. A bill update reaches the stream of its user. When the database
    is up and NATS connected, [UpdateBilling] publishes one message on
    "bill.update", whether the user has an account or not; the callback of
    notification-ms turns it into a notification for the user id as the
    message carries it, with the text "Your bill was updated to " and the
    amount with two decimals, or "Dr. Prakash Metre made you poor!! bill
    updated to " and the amount when the amount is above 100, and puts it
    on the queue of the stream open for that id when there is room. *)
Theorem bill_update_reaches_the_stream (real : float → float) (fixed2 : float → string)
    UserId Amount b r b' nenv s sub x :
  billingms.UpdateBilling real fixed2 None true UserId Amount b = (r, b') →
  consistent s →
  subscribers s !! utf8.coerce UserId = Some sub →
  heap s !! sub = Some x →
  length (buf (ch x)) < 10 →
  time.After (1 * time.Second) (elapsed nenv) && pickTimer nenv = false →
  ∃ m notif s',
    r = Done true ∧
    billingms.nc b' = billingms.nc b ++ [m] ∧
    notif = {| notifpb.Id := uuid nenv;
               notifpb.UserId := utf8.coerce UserId;
               notifpb.Message :=
                 utf8.coerce
                   ((if (100 <? Amount)%float
                     then "Dr. Prakash Metre made you poor!! bill updated to "
                     else "Your bill was updated to ") +:+ fixed2 Amount);
               notifpb.Timestamp := now nenv |} ∧
    onMsg nenv m s = Ok (Some (notif, Delivered), s') ∧
    queue s' sub = buf (ch x) ++ [notif].
Proof.
  intros Hupd [Hmap Hcap] Hsub Hx Hroom Hpick.
  destruct (Hmap _ _ Hsub) as (y & Hy & _ & Hopen).
  assert (y = x) as -> by congruence.
  destruct (Hcap _ _ Hx) as [Hc _].
  set (text := (if (100 <? Amount)%float
                then "Dr. Prakash Metre made you poor!! bill updated to "
                else "Your bill was updated to ") +:+ fixed2 Amount).
  set (msg := billingms.mkMsg UserId text).
  set (m := {| Subject := "bill.update";
               Data := Some (jsonenc.Marshal billingms.msg_out msg).1 |}).
  assert (r = Done true ∧ billingms.nc b' = billingms.nc b ++ [m]) as [-> Hnc].
  { revert Hupd. unfold billingms.UpdateBilling, billingms.updateBilling.
    subst m msg text.
    destruct (billingms.db b !! UserId); destruct (100 <? Amount)%float;
      simpl; by intros [= <- <-]. }
  exists m. eexists _, _. split_and!; [done|done|done| |].
  - rewrite onMsg_billUpdate by done.
    rewrite (onBillUpdate_decoded nenv m _ _ (msg_round_trip msg)). simpl.
    unfold mbind at 1, M_bind.
    rewrite (broadcast_present _ _ _ _ _ sub) by done.
    rewrite (broadcastSelect_send _ _ _ _ _ sub x); [done|done|done|simpl; lia|done].
  - unfold queue. simpl. rewrite list_lookup_insert_eq; [done|].
    by apply lookup_lt_Some in Hx.
Qed.

Lemma bill_update_reaches_the_stream_witness :
  ∃ m, billingms.nc (billingms.UpdateBilling exact fixed2At250 None true "u1" 250 noAccounts).2
       = [m] ∧
    queue (match onMsg env0 m (after [Open "u1"]) with Ok (_, s') => s' | _ => newServer end) 0
    = [notifpb.mkNotification "5d41" "u1"
         "Dr. Prakash Metre made you poor!! bill updated to 250.00"
         "2025-01-01 00:00:00 +0000 UTC"].
Proof.
  assert (consistent (after [Open "u1"])) as Hs.
  { apply reachable_consistent. eapply reachable_after. vm_compute. reflexivity. }
  destruct (bill_update_reaches_the_stream exact fixed2At250 "u1" 250 noAccounts
              (billingms.UpdateBilling exact fixed2At250 None true "u1" 250 noAccounts).1
              (billingms.UpdateBilling exact fixed2At250 None true "u1" 250 noAccounts).2
              env0 (after [Open "u1"]) 0 (mkSubscriber (make 10) "u1"))
    as (m & notif & s' & _ & Hnc & -> & Hmsg & Hq).
  - reflexivity.
  - exact Hs.
  - vm_compute. reflexivity.
  - vm_compute. reflexivity.
  - simpl. lia.
  - reflexivity.
  - exists m. split; [exact Hnc|]. rewrite Hmsg. exact Hq.
Defined.

(** X14. A "user.created" message never changes an account that exists.
    Whatever the message and whether or not the database fails, the
    callback of billing-ms leaves every row of the table as it is, so an
    event delivered again, or one for a user whose bill was updated in
    between, does not set the amount back to 0; and the table after a
    second delivery of a message is the table after the first. *)
Theorem user_created_keeps_existing_accounts (real : float → float)
    fault m b user amount :
  billingms.db b !! user = Some amount →
  billingms.db (billingms.onMsg real fault m b) !! user = Some amount ∧
  billingms.db (billingms.onMsg real fault m (billingms.onMsg real None m b))
  = billingms.db (billingms.onMsg real None m b).
Proof.
  intros Hrow. unfold billingms.onMsg.
  case_bool_decide as Hsubj; [|done].
  unfold billingms.onUserCreated.
  destruct (json.Unmarshal _ _ _) as [event [e|]]; [done|].
  unfold billingms.insertBilling. simpl. split.
  - destruct fault; [done|].
    destruct (billingms.db b !! UID event) as [a|] eqn:Hev; simpl; [done|].
    rewrite lookup_insert_ne; [done|]. intros <-. congruence.
  - destruct (billingms.db b !! UID event) as [a|] eqn:Hev; simpl.
    + destruct fault; simpl; [done|]. by rewrite Hev.
    + destruct fault; simpl; [done|]. by rewrite lookup_insert_eq.
Qed.

Lemma user_created_keeps_existing_accounts_witness :
  billingms.GetBilling None "u1"
    (billingms.onMsg exact None
       {| Subject := "user.created"; Data := userCreatedPayload "u1" "ana@example.com" |}
       (billingms.UpdateBilling exact fixed2At250 None true "u1" 250
          (billingms.CreateBillingAccount exact None "u1" noAccounts).2).2)
  = Done 250%float.
Proof.
  unfold billingms.GetBilling.
  destruct (user_created_keeps_existing_accounts exact None
              {| Subject := "user.created";
                 Data := userCreatedPayload "u1" "ana@example.com" |}
              (billingms.UpdateBilling exact fixed2At250 None true "u1" 250
                 (billingms.CreateBillingAccount exact None "u1" noAccounts).2).2
              "u1" 250%float) as [-> _].
  - vm_compute. reflexivity.
  - reflexivity.
Defined.

(** ** Strings on the bus *)

Ltac split_if :=
  match goal with
  | |- context [if ?c then _ else _] => destruct c eqn:?
  end.

Lemma coerce_valid_bounded n :
  ∀ s, String.length s ≤ n → utf8.ValidString s = true → utf8.coerce s = s.
Proof.
  induction n as [|n IH]; intros s Hlen Hv.
  { destruct s; [done|simpl in Hlen; lia]. }
  destruct s as [|c0 t1]; [done|].
  cbn [String.length] in Hlen.
  revert Hv. cbn [utf8.ValidString utf8.coerce]. unfold utf8.first.
  generalize (nat_of_ascii c0). intros b.
  repeat match goal with
  | |- context [if b <? ?k then _ else _] => destruct (b <? k)
  | |- context [if b =? ?k then _ else _] => destruct (b =? k)
  end.
  all: cbn -[utf8.coerce utf8.ValidString Nat.ltb utf8.continuation].
  all: try done.
  all: try (intros Hv; rewrite IH by (done || lia); done).
  all: destruct t1 as [|c1 t2]; [done|]; cbn [String.length] in Hlen.
  all: split_if; [done|].
  all: try (intros Hv; rewrite IH by (done || lia); done).
  all: destruct t2 as [|c2 t3]; [done|]; cbn [String.length] in Hlen.
  all: split_if; [done|].
  all: try (intros Hv; rewrite IH by (done || lia); done).
  all: destruct t3 as [|c3 t4]; [done|]; cbn [String.length] in Hlen.
  all: split_if; [done|].
  all: try (intros Hv; rewrite IH by (done || lia); done).
Qed.

(** [json.Marshal] writes a string that is valid UTF-8 as it is. *)
Lemma coerce_valid s : utf8.ValidString s = true → utf8.coerce s = s.
Proof. by apply (coerce_valid_bounded (String.length s)). Qed.

(** X15. Valid UTF-8 crosses the bus unchanged. What user-ms marshals for
    an event whose id and email are valid UTF-8 decodes, in the struct of
    the subscribers, to the same id and email, and what billing-ms marshals
    for its message without tags decodes in [billUpdate] to the same id
    and text; the keys written by the one side select the fields of the
    other, and no decoding error is reported. *)
Theorem valid_strings_cross_the_bus (event : UserCreatedEvent) (msg : billingms.msg) :
  utf8.ValidString (UID event) = true →
  utf8.ValidString (Username event) = true →
  utf8.ValidString (billingms.Id msg) = true →
  utf8.ValidString (billingms.Message msg) = true →
  json.Unmarshal UserCreatedEvent_fields
    (Some (jsonenc.Marshal UserCreatedEvent_out event).1) zeroUserCreatedEvent
  = (event, None) ∧
  json.Unmarshal billUpdate_fields
    (Some (jsonenc.Marshal billingms.msg_out msg).1) zeroBillUpdate
  = ({| Id := billingms.Id msg; Message := billingms.Message msg |}, None).
Proof.
  intros H1 H2 H3 H4.
  rewrite UserCreatedEvent_round_trip, msg_round_trip.
  rewrite !coerce_valid by done. by destruct event.
Qed.

Lemma valid_strings_cross_the_bus_witness :
  (json.Unmarshal UserCreatedEvent_fields
     (Some (jsonenc.Marshal UserCreatedEvent_out {| UID := "u1"; Username := emailRene |}).1)
     zeroUserCreatedEvent).1
  = {| UID := "u1"; Username := emailRene |}.
Proof.
  destruct (valid_strings_cross_the_bus {| UID := "u1"; Username := emailRene |}
              (billingms.mkMsg "u1" "Your bill was updated to 250.00")) as [-> _].
  - reflexivity.
  - vm_compute. reflexivity.
  - reflexivity.
  - vm_compute. reflexivity.
  - reflexivity.
Defined.

(** ** api-gateway in front of billing-ms *)

(** X16. The answers of GET /user/billing/{user_id}. An empty id is
    answered 400 "User ID is required" without a call of billing-ms. A user
    without an account is answered 500, not 404, and the body carries the
    text of the database error inside that of the gRPC error, as it does
    for every failure of the query; a user with an account is answered 200
    with the amount of the row. *)
Theorem billing_info_answers fault userID b :
  let w := gateway.handleGetBillingInfo fault userID b gateway.newResponseWriter in
  gateway.header w !! "Content-Type" = Some "application/json" ∧
  if bool_decide (userID = "") then
    gateway.status w = Some 400 ∧
    gateway.body w = [gateway.ErrorBody "User ID is required"]
  else
    match fault, billingms.db b !! userID with
    | Some err, _ =>
        gateway.status w = Some 500 ∧
        gateway.body w
        = [gateway.ErrorBody
             ("rpc error: code = Unknown desc = could not get billing: " +:+ err)]
    | None, None =>
        gateway.status w = Some 500 ∧
        gateway.body w
        = [gateway.ErrorBody
             "rpc error: code = Unknown desc = could not get billing: sql: no rows in result set"]
    | None, Some amount =>
        gateway.status w = Some 200 ∧ gateway.body w = [gateway.ResultBody amount]
    end.
Proof.
  unfold gateway.handleGetBillingInfo, billingms.GetBilling.
  case_bool_decide; [done|].
  destruct fault; [done|]. by destruct (billingms.db b !! userID).
Qed.
